(** * USBTMC message framing: a model of the [usbtmc] Go package

    The development embeds the protocol layer of the package (file
    [context.go]: the [Device] type, [Write], [doRead], [readRemoveHeader],
    [readKeepHeader], [Command]) as Rocq functions and proves properties of
    the write and read pipelines.

    Conventions.
    - A Go [byte] is a [Z]; a [[]byte] and a Go [string] are [list byte].
    - Go [int] values that are slice lengths or positions are [nat]: every
      subtraction the source performs on them is guarded so that it is not
      negative, and lengths are far from the 64-bit limit.
    - The conversion [uint32(n)] is written out as [n mod 2^32].
    - The USB driver behind [d.usbDevice] is an interface in the source; it is
      modelled by a scripted device that records what it is handed. *)

From Stdlib Require Import List ZArith Lia Bool Arith PeanoNat.
From Stdlib Require String Ascii DecimalString.
Import ListNotations.

Abbreviation byte := Z (only parsing).

(** ** Slices *)

(** [s[lo:hi]] for in-range indices. *)
Definition slice {A : Type} (s : list A) (lo hi : nat) : list A :=
  firstn (hi - lo) (skipn lo s).

(** Go's builtin [copy(dst, src)]: copies [min(len(dst), len(src))] elements
    and leaves the rest of [dst] alone.  The result is the new [dst]. *)
Definition copy {A : Type} (dst src : list A) : list A :=
  firstn (length dst) src ++ skipn (length src) dst.

(** ** Header codec *)

Module Wire.

Definition usbtmcHeaderLen : nat := 12.

(** Modelled from the spec: the constant [bulkOutHeaderSize] is declared
    outside the files at hand; the header is the fixed 12-byte USBTMC
    header. *)
Definition bulkOutHeaderSize : nat := 12.

(** Modelled from the spec: the [msgID] enumeration is declared outside the
    files at hand.  [inHdrToString] prints [devDepMsgOut] as "1???" and
    [vendorSpecificOut] as "126?"; the IN identifiers are the USBTMC ones. *)
Definition devDepMsgOut : byte := 1%Z.
Definition devDepMsgIn : byte := 2%Z.
Definition vendorSpecificOut : byte := 126%Z.
Definition vendorSpecificIn : byte := 127%Z.

(** Modelled from the spec: [invertbTag] is defined outside the files at
    hand; the inverse of a tag is [0xFF - tag]. *)
Definition invertbTag (bTag : byte) : byte := (255 - bTag)%Z.

(** Modelled from the spec: [nextbTag] is defined outside the files at hand;
    it increments through 1..255 and wraps to 1, skipping the reserved 0. *)
Definition nextbTag (bTag : byte) : byte := (bTag mod 255 + 1)%Z.

Definition uint32 (n : Z) : Z := (n mod 2 ^ 32)%Z.

(** [binary.LittleEndian.PutUint32]. *)
Definition putUint32 (v : Z) : list byte :=
  [ (v mod 256)%Z; (v / 256 mod 256)%Z;
    (v / 65536 mod 256)%Z; (v / 16777216 mod 256)%Z ].

(** [binary.LittleEndian.Uint32(b)] for a 4-byte slice [b]. *)
Definition leUint32 (b : list byte) : Z :=
  (nth 0 b 0 + 256 * nth 1 b 0 + 65536 * nth 2 b 0 + 16777216 * nth 3 b 0)%Z.

(** Modelled from the spec: [encodeBulkOutHeader] is defined outside the
    files at hand.  Layout: message id, tag, tag inverse, reserved, transfer
    size (4 bytes, little endian), attributes (EOM is bit 0), three reserved
    bytes. *)
Definition encodeBulkOutHeader (bTag : byte) (transferSize : Z) (eom : bool)
  : list byte :=
  [devDepMsgOut; bTag; invertbTag bTag; 0%Z]
  ++ putUint32 transferSize
  ++ [if eom then 1%Z else 0%Z; 0%Z; 0%Z; 0%Z].

(** Modelled from the spec: [encodeMsgInBulkOutHeader] is defined outside the
    files at hand.  Same layout; the attribute byte carries the
    terminator-requested flag (bit 1) and the terminator character is
    embedded whether or not the flag is set. *)
Definition encodeMsgInBulkOutHeader (bTag : byte) (transferSize : Z)
  (termCharEnabled : bool) (termChar : byte) : list byte :=
  [devDepMsgIn; bTag; invertbTag bTag; 0%Z]
  ++ putUint32 transferSize
  ++ [if termCharEnabled then 2%Z else 0%Z; termChar; 0%Z; 0%Z].

(** Decoding of the fields the claims speak about. *)
Definition hdrTag (h : list byte) : byte := nth 1 h 0%Z.
Definition hdrTagInverse (h : list byte) : byte := nth 2 h 0%Z.
Definition hdrTransferSize (h : list byte) : Z := leUint32 (slice h 4 8).
Definition hdrAttr (h : list byte) : byte := nth 8 h 0%Z.
Definition hdrEOM (h : list byte) : bool := Z.testbit (hdrAttr h) 0.

End Wire.
Import Wire.

(** ** The USB driver *)

Inductive error : Type :=
| ErrTransport (code : nat)      (* an error of the USB driver *)
| ErrShortRead (n : nat).        (* "short %d-byte read: no space for header" *)

(** A scripted device.  [outLog] and [inLog] record, oldest first, every
    buffer handed to [Write] and the length of every buffer handed to [Read].
    [wrScript] gives the outcome of the coming writes ([None]: accepted; when
    the script is used up, writes are accepted); [rdScript] gives the bytes and
    the error of the coming reads (when the script is used up, reads fail). *)
Record USBDevice : Type := mkUSB {
  outLog : list (list byte);
  wrScript : list (option error);
  rdScript : list (list byte * option error);
  inLog : list nat
}.

Definition usbWrite (u : USBDevice) (data : list byte)
  : USBDevice * (nat * option error) :=
  let u' := mkUSB (outLog u ++ [data]) (tl (wrScript u)) (rdScript u) (inLog u) in
  match wrScript u with
  | Some e :: _ => (u', (0, Some e))
  | _ => (u', (length data, None))
  end.

(** [Read(buf)]: the driver reports [n = len(data)] and the error of the
    script entry; the bytes land at the start of [buf]. *)
Definition usbRead (u : USBDevice) (buf : list byte)
  : USBDevice * list byte * (nat * option error) :=
  match rdScript u with
  | (data, err) :: rest =>
      (mkUSB (outLog u) (wrScript u) rest (inLog u ++ [length buf]),
       copy buf data, (length data, err))
  | [] =>
      (mkUSB (outLog u) (wrScript u) [] (inLog u ++ [length buf]),
       buf, (0, Some (ErrTransport 0)))
  end.

(** ** Device *)

Record Device : Type := mkDevice {
  usbDevice : USBDevice;
  bTag : byte;
  termChar : byte;
  termCharEnabled : bool
}.

Definition set_bTag (d : Device) (t : byte) : Device :=
  mkDevice (usbDevice d) t (termChar d) (termCharEnabled d).

Definition set_usb (d : Device) (u : USBDevice) : Device :=
  mkDevice u (bTag d) (termChar d) (termCharEnabled d).

(** [defaultDevice], bound to a driver handle. *)
Definition defaultDevice (u : USBDevice) : Device :=
  mkDevice u 1%Z 10%Z true.

(** ** Write *)

Definition maxTransferSize : nat := 512.

(** One pass through the body of the loop of [Write], up to and including the
    call of the driver: the device afterwards, [thisLen] and the driver's
    error. *)
Definition Write_chunk (d : Device) (p : list byte) (pos : nat)
  : Device * nat * option error :=
  let d1 := set_bTag d (nextbTag (bTag d)) in
  let thisLen := length (skipn pos p) in
  let thisLen :=
    if maxTransferSize - bulkOutHeaderSize <? thisLen
    then maxTransferSize - bulkOutHeaderSize else thisLen in
  let header := encodeBulkOutHeader (bTag d1) (uint32 (Z.of_nat thisLen)) true in
  let data := header ++ slice p pos (pos + thisLen) in
  let moduloFour := length data mod 4 in
  let data :=
    if 0 <? moduloFour then data ++ repeat 0%Z (4 - moduloFour) else data in
  let '(u', (_, err)) := usbWrite (usbDevice d1) data in
  (set_usb d1 u', thisLen, err).

(** The loop [for pos := 0; pos < len(p); { ... }].  [None] stands for a loop
    that has not finished within [fuel] passes. *)
Fixpoint Write_loop (fuel : nat) (d : Device) (p : list byte) (pos : nat)
  : option (Device * (nat * option error)) :=
  if pos <? length p then
    match fuel with
    | O => None
    | S fuel' =>
        let '(d', thisLen, err) := Write_chunk d p pos in
        match err with
        | Some e => Some (d', (pos, Some e))
        | None => Write_loop fuel' d' p (pos + thisLen)
        end
    end
  else Some (d, (length p, None)).

(** Every pass that goes on consumes at least one byte of [p], so [len(p)]
    passes are enough ([Write_total] below). *)
Definition Write (d : Device) (p : list byte)
  : option (Device * (nat * option error)) :=
  Write_loop (length p) d p 0.

(** ** Read *)

(** A run-time panic of the Go program. *)
Inductive panic : Type :=
| SliceBounds (low high : nat).   (* slice bounds out of range [low:high] *)

Inductive result (A : Type) : Type :=
| Ok (a : A)
| Panic (f : panic)
| OutOfFuel.

Arguments Ok {A} a.
Arguments Panic {A} f.
Arguments OutOfFuel {A}.

(** [readRemoveHeader(p)]: the device afterwards, the new contents of [p],
    and the four results [(n, transfer, transferAttr, err)].  The argument of
    [debug.Printf], [inHdrToString(temp)], indexes [temp] below 12 only, and
    [temp] holds at least 512 bytes. *)
Definition readRemoveHeader (d : Device) (p : list byte)
  : Device * list byte * (nat * nat * byte * option error) :=
  let tempSz := length p + usbtmcHeaderLen in
  let m := tempSz mod 512 in
  let tempSz := if negb (m =? 0) then tempSz + (512 - m) else tempSz in
  let temp := repeat 0%Z tempSz in
  let '(u', temp, (n, err)) := usbRead (usbDevice d) temp in
  let d' := set_usb d u' in
  match err with
  | Some e => (d', p, (0, 0, 0%Z, Some e))
  | None =>
      if n <? usbtmcHeaderLen then (d', p, (0, 0, 0%Z, Some (ErrShortRead n)))
      else
        let t32 := leUint32 (slice temp 4 8) in
        let transfer := Z.to_nat t32 in
        let transferAttr := nth 8 temp 0%Z in
        let toCopy := Nat.min (length temp - usbtmcHeaderLen) (n - usbtmcHeaderLen) in
        let p' :=
          if 0 <? toCopy
          then copy p (slice temp usbtmcHeaderLen (usbtmcHeaderLen + toCopy))
          else p in
        (d', p', (n - usbtmcHeaderLen, transfer, transferAttr, None))
  end.

(** [readKeepHeader(p)]: the driver reads straight into [p]. *)
Definition readKeepHeader (d : Device) (p : list byte)
  : Device * list byte * (nat * option error) :=
  let '(u', p', r) := usbRead (usbDevice d) p in
  (set_usb d u', p', r).

(** The bounds of the slice expression [p[pos:dumpLen]], an argument of the
    second [debug.Printf] of the loop: Go evaluates it on every pass, whatever
    the logger does with it. *)
Definition dumpLenOf (lenp pos resp : nat) : nat :=
  let dumpLen := if resp <? 100 then resp else 100 in
  let left := lenp - pos in
  if left <? dumpLen then left else dumpLen.

(** The loop [for pos < len(p) { ... }] of [doRead] and the final
    [return min(pos, transfer), nil].  [p] is the caller's buffer, which the
    passes fill through the slices [p[pos:]]. *)
Fixpoint doRead_loop (fuel : nat) (d : Device) (p : list byte)
  (pos transfer : nat)
  : result (Device * list byte * (nat * option error)) :=
  if pos <? length p then
    match fuel with
    | O => OutOfFuel
    | S fuel' =>
        let '(d1, sub, (resp, transfer1, err)) :=
          if pos =? 0 then
            let '(d1, sub, (n, t, _, err)) := readRemoveHeader d (skipn pos p) in
            (d1, sub, (n, t, err))
          else
            let '(d1, sub, (n, err)) := readKeepHeader d (skipn pos p) in
            (d1, sub, (n, transfer, err)) in
        let p1 := firstn pos p ++ sub in
        let dumpLen := dumpLenOf (length p) pos resp in
        if negb (pos <=? dumpLen) then Panic (SliceBounds pos dumpLen)
        else
          match err with
          | Some e => Ok (d1, p1, (pos, Some e))
          | None =>
              if resp =? 0 then Ok (d1, p1, (Nat.min pos transfer1, None))
              else
                let pos1 := pos + resp in
                if transfer1 <=? pos1
                then Ok (d1, p1, (Nat.min pos1 transfer1, None))
                else doRead_loop fuel' d1 p1 pos1 transfer1
          end
    end
  else Ok (d, p, (Nat.min pos transfer, None)).

(** [doRead(p, useTermChar)].  A pass that goes on has delivered at least one
    byte, so [len(p)] passes are enough ([doRead_total] below). *)
Definition doRead (d : Device) (p : list byte) (useTermChar : bool)
  : result (Device * list byte * (nat * option error)) :=
  let d1 := set_bTag d (nextbTag (bTag d)) in
  let header :=
    encodeMsgInBulkOutHeader (bTag d1) (uint32 (Z.of_nat (length p)))
      (useTermChar && termCharEnabled d1) (termChar d1) in
  let '(u', (_, err)) := usbWrite (usbDevice d1) header in
  let d2 := set_usb d1 u' in
  match err with
  | Some e => Ok (d2, p, (0, Some e))
  | None => doRead_loop (length p) d2 p 0 0
  end.

Definition Read (d : Device) (p : list byte) := doRead d p true.
Definition BulkRead (d : Device) (p : list byte) := doRead d p false.

(** ** Command *)

Module Strings.

(** [strings.TrimSpace] of the Go standard library, on the bytes of a string:
    it removes leading and trailing white space as Unicode defines it.  The
    white-space characters and their UTF-8 encodings are: U+0009..U+000D and
    U+0020 (one byte); U+0085 and U+00A0 (C2 85, C2 A0); U+1680 (E1 9A 80);
    U+2000..U+200A, U+2028, U+2029, U+202F (E2 80 80..8A, A8, A9, AF);
    U+205F (E2 81 9F); U+3000 (E3 80 80). *)
Definition space1 (c : byte) : bool :=
  ((9 <=? c) && (c <=? 13) || (c =? 32))%Z.

Definition space2 (c1 c2 : byte) : bool :=
  ((c1 =? 194) && ((c2 =? 133) || (c2 =? 160)))%Z.

Definition space3 (c1 c2 c3 : byte) : bool :=
  ((c1 =? 225) && (c2 =? 154) && (c3 =? 128)
   || (c1 =? 226) && (c2 =? 128)
      && ((128 <=? c3) && (c3 <=? 138) || (c3 =? 168) || (c3 =? 169) || (c3 =? 175))
   || (c1 =? 226) && (c2 =? 129) && (c3 =? 159)
   || (c1 =? 227) && (c2 =? 128) && (c3 =? 128))%Z.

Section Strip.

(** The characters to strip, by the bytes of their encodings of one, two and
    three bytes, in the order in which the bytes are met. *)
Variable sp1 : byte -> bool.
Variable sp2 : byte -> byte -> bool.
Variable sp3 : byte -> byte -> byte -> bool.

(** Removal of the characters at the front of [s]. *)
Fixpoint strip (s : list byte) : list byte :=
  match s with
  | [] => []
  | c1 :: r1 =>
      if sp1 c1 then strip r1
      else
        match r1 with
        | [] => s
        | c2 :: r2 =>
            if sp2 c1 c2 then strip r2
            else
              match r2 with
              | [] => s
              | c3 :: r3 => if sp3 c1 c2 c3 then strip r3 else s
              end
        end
  end.

(** [s] starts with one of the characters. *)
Definition starts (s : list byte) : bool :=
  match s with
  | [] => false
  | c1 :: r1 =>
      sp1 c1
      || match r1 with
         | [] => false
         | c2 :: r2 =>
             sp2 c1 c2
             || match r2 with
                | [] => false
                | c3 :: _ => sp3 c1 c2 c3
                end
         end
  end.

(** [s] is a sequence of the characters. *)
Inductive run : list byte -> Prop :=
| run_nil : run []
| run_1 c s : sp1 c = true -> run s -> run (c :: s)
| run_2 c1 c2 s : sp2 c1 c2 = true -> run s -> run (c1 :: c2 :: s)
| run_3 c1 c2 c3 s :
    sp3 c1 c2 c3 = true -> run s -> run (c1 :: c2 :: c3 :: s).

End Strip.

(** Removal of the leading white space. *)
Definition trimLeft (s : list byte) : list byte :=
  strip space1 space2 space3 s.

(** Removal of the trailing white space, on the reversed string: the last
    byte comes first. *)
Definition trimLeftRev (s : list byte) : list byte :=
  strip space1 (fun c1 c2 => space2 c2 c1) (fun c1 c2 c3 => space3 c3 c2 c1) s.

Definition trimRight (s : list byte) : list byte := rev (trimLeftRev (rev s)).

Definition TrimSpace (s : list byte) : list byte := trimRight (trimLeft s).

(** A string of white space, and a string that starts with white space. *)
Definition allSpace (s : list byte) : Prop := run space1 space2 space3 s.

Definition startsWithSpace (s : list byte) : bool :=
  starts space1 space2 space3 s.

(** What the specification words for the text of [Command]: only the
    trailing white space goes.  Not what the source calls; it is there to be
    compared with [TrimSpace]. *)
Definition trimTrailing_spec (s : list byte) : list byte := trimRight s.

End Strings.
Import Strings.

(** [WriteString(s)]. *)
Definition WriteString (d : Device) (s : list byte) := Write d s.

(** [Command(format)] for an already formatted text ([a == nil]); it returns
    the device afterwards and the [error] of [WriteString]. *)
Definition Command (d : Device) (cmd : list byte)
  : option (Device * option error) :=
  match WriteString d (TrimSpace cmd ++ [10%Z]) with
  | Some (d', (_, err)) => Some (d', err)
  | None => None
  end.

(** ** Vocabulary of the statements *)

(** The outcome the script holds for the coming write. *)
Definition wrOutcome (u : USBDevice) : option error :=
  match wrScript u with
  | Some e :: _ => Some e
  | _ => None
  end.

(** A driver that accepts every write. *)
Definition acceptsWrites (u : USBDevice) : Prop :=
  Forall (fun r => r = None) (wrScript u).

(** Zero padding to the next multiple of four. *)
Definition pad4 (data : list byte) : list byte :=
  let moduloFour := length data mod 4 in
  if 0 <? moduloFour then data ++ repeat 0%Z (4 - moduloFour) else data.

(** The transfer [Write] builds for the chunk [c] under the tag [t]. *)
Definition frameOf (t : byte) (c : list byte) : list byte :=
  pad4 (encodeBulkOutHeader t (uint32 (Z.of_nat (length c))) true ++ c).

(** The transfers for a list of chunks; the tag advances before each. *)
Fixpoint framesOf (t : byte) (cs : list (list byte)) : list (list byte) :=
  match cs with
  | [] => []
  | c :: cs' => frameOf (nextbTag t) c :: framesOf (nextbTag t) cs'
  end.

(** The payload a transfer carries: as many bytes after the header as the
    header declares. *)
Definition sentPayload (f : list byte) : list byte :=
  firstn (Z.to_nat (hdrTransferSize f)) (skipn usbtmcHeaderLen f).

(** The number of chunks of a payload of [L] bytes, [ceil(L/500)]. *)
Definition chunkCount (L : nat) : nat := (L + 499) / 500.

(** The first [k] chunks of at most 500 bytes of [p]. *)
Fixpoint chunksN (k : nat) (p : list byte) : list (list byte) :=
  match k with
  | O => []
  | S k' => firstn 500 p :: chunksN k' (skipn 500 p)
  end.

Definition chunks (p : list byte) : list (list byte) :=
  chunksN (chunkCount (length p)) p.

(** The tag after [k] transfers. *)
Fixpoint tagAfter (k : nat) (t : byte) : byte :=
  match k with
  | O => t
  | S k' => tagAfter k' (nextbTag t)
  end.

(** The continuation reads of a response, by their sizes, when [pos] bytes of
    a buffer of [L] bytes are filled and the header declared [T]: each read is
    not empty, fits what is left of the buffer, and leaves the bounds of the
    trace slice [p[pos:dumpLen]] in range; after the last one the declared
    size or the end of the buffer is reached. *)
Fixpoint contOK (L T pos : nat) (rs : list nat) : bool :=
  match rs with
  | [] => (T <=? pos) || (L <=? pos)
  | r :: rs' =>
      (0 <? pos) && (pos <? T) && (pos <? L) && (0 <? r) && (r <=? L - pos)
      && (pos <=? dumpLenOf L pos r) && contOK L T (pos + r) rs'
  end.

(** The device [d] with [rs] as the reads to come. *)
Definition withReads (d : Device) (rs : list (list byte * option error))
  : Device :=
  set_usb d (mkUSB (outLog (usbDevice d)) (wrScript (usbDevice d)) rs
               (inLog (usbDevice d))).

(** The size of the temporary buffer of [readRemoveHeader] for a caller
    buffer of [lenp] bytes. *)
Definition tempSize (lenp : nat) : nat :=
  let tempSz := lenp + usbtmcHeaderLen in
  let m := tempSz mod 512 in
  if negb (m =? 0) then tempSz + (512 - m) else tempSz.

(** What the caller of [doRead] sees: the buffer and the two results. *)
Definition seenByCaller
  (r : result (Device * list byte * (nat * option error)))
  : result (list byte * (nat * option error)) :=
  match r with
  | Ok (_, p, ne) => Ok (p, ne)
  | Panic f => Panic f
  | OutOfFuel => OutOfFuel
  end.

(** The number of bytes the coming read of a script delivers; none when the
    script is used up. *)
Definition readSize (rs : list (list byte * option error)) : nat :=
  match rs with
  | (r, _) :: _ => length r
  | [] => 0
  end.

(** The device once the driver has been handed the request header of
    [doRead(p, useTermChar)]. *)
Definition afterRequest (d : Device) (p : list byte) (useTermChar : bool)
  : Device :=
  let u := usbDevice d in
  mkDevice
    (mkUSB
       (outLog u
        ++ [encodeMsgInBulkOutHeader (nextbTag (bTag d))
              (uint32 (Z.of_nat (length p)))
              (useTermChar && termCharEnabled d) (termChar d)])
       (tl (wrScript u)) (rdScript u) (inLog u))
    (nextbTag (bTag d)) (termChar d) (termCharEnabled d).

(** Sample devices and data for the closed statements. *)
Definition idleUSB : USBDevice := mkUSB [] [] [] [].

Definition respondingUSB (rs : list (list byte * option error)) : USBDevice :=
  mkUSB [] [] rs [].

Definition failingUSB (ws : list (option error)) : USBDevice :=
  mkUSB [] ws [] [].

(** A response header: device-dependent message in, tag [t], tag inverse
    [ti], declared size [T], EOM set. *)
Definition respHeader (t ti : byte) (T : Z) : list byte :=
  [devDepMsgIn; t; ti; 0%Z] ++ putUint32 T ++ [1%Z; 0%Z; 0%Z; 0%Z].

(** ** Query *)

Definition maxPacketSize : nat := 512.

(** [Query(s)]: the device afterwards, the returned string and the error.
    [d.Command(s)] passes no arguments, so [s] is sent as it is.  The slice
    expression [p[:n]] panics when [n] exceeds the capacity of [p], which is
    its length. *)
Definition Query (d : Device) (s : list byte)
  : result (Device * (list byte * option error)) :=
  match Command d s with
  | None => OutOfFuel
  | Some (d1, Some e) => Ok (d1, ([], Some e))
  | Some (d1, None) =>
      let p := repeat 0%Z (maxPacketSize - usbtmcHeaderLen) in
      match Read d1 p with
      | Ok (d2, p', (n, Some e)) => Ok (d2, ([], Some e))
      | Ok (d2, p', (n, None)) =>
          if length p' <? n then Panic (SliceBounds 0 n)
          else Ok (d2, (firstn n p', None))
      | Panic f => Panic f
      | OutOfFuel => OutOfFuel
      end
  end.

(** ** Context *)

(** The USB context of the driver, as far as this package uses it: the
    lookup of a device by vendor and product id, which yields a driver handle
    or an error. *)
Definition DriverContext : Type := Z -> Z -> USBDevice + error.

Record Context : Type := mkContext {
  libusbContext : DriverContext;
  startTag : byte
}.

(** [NewContext()]; the argument is what [libusbDriver.NewContext()]
    returns. *)
Definition NewContext (fromDriver : DriverContext + error) : Context + error :=
  match fromDriver with
  | inr e => inr e
  | inl c => inl (mkContext c 1%Z)
  end.

Definition SetStartTag (c : Context) (t : byte) : Context :=
  mkContext (libusbContext c) t.

(** [NewDeviceByVIDPID(VID, PID)]: [defaultDevice()] with the start tag of
    the context and the handle the driver found. *)
Definition NewDeviceByVIDPID (c : Context) (VID PID : Z) : Device + error :=
  match libusbContext c VID PID with
  | inr e => inr e
  | inl u => inl (set_bTag (defaultDevice u) (startTag c))
  end.

(** ** The trace of a received header *)

Module Trace.
Import Ascii String.
Local Open Scope string_scope.

Local Infix "+++" := append (at level 60, right associativity).

(** The decimal digits of a number that is not negative ([%d]). *)
Definition decimal (z : Z) : string :=
  DecimalString.NilZero.string_of_uint (N.to_uint (Z.to_N z)).

Fixpoint fill (c : ascii) (n : nat) : string :=
  match n with
  | O => EmptyString
  | S n' => String c (fill c n')
  end.

(** Padding on the left to the width [w]. *)
Definition padLeft (c : ascii) (w : nat) (s : string) : string :=
  fill c (w - String.length s) +++ s.

(** The verb [%03d]: zero padding to three digits. *)
Definition fmt03d (z : Z) : string := padLeft "0"%char 3 (decimal z).

(** The verb [% 3d]: a blank in the place of the sign, then blanks up to the
    width 3. *)
Definition fmtSp3d (z : Z) : string := padLeft " "%char 3 (" " +++ decimal z).

Definition hexDigits : list ascii :=
  [ "0"; "1"; "2"; "3"; "4"; "5"; "6"; "7";
    "8"; "9"; "a"; "b"; "c"; "d"; "e"; "f" ]%char.

Definition hexDigit (n : Z) : ascii := nth (Z.to_nat n) hexDigits "0"%char.

(** [hex.EncodeToString]. *)
Fixpoint hexEncode (bs : list byte) : string :=
  match bs with
  | [] => EmptyString
  | b :: r =>
      String (hexDigit (b / 16)) (String (hexDigit (b mod 16)) (hexEncode r))
  end.

(** [inHdrToString(buf)], for a [buf] of at least 12 bytes (the source
    indexes it up to there; it is called on the temporary buffer of
    [readRemoveHeader]). *)
Definition inHdrToString (buf : list byte) : string :=
  let id := nth 0 buf 0%Z in
  let bTag := nth 1 buf 0%Z in
  let bTagInverse := nth 2 buf 0%Z in
  let out := "type " in
  let out :=
    out +++ (if (id =? devDepMsgOut)%Z then "1???"
             else if (id =? devDepMsgIn)%Z then "dvdp"
             else if (id =? vendorSpecificOut)%Z then "126?"
             else if (id =? vendorSpecificIn)%Z then "vnsp"
             else "R" +++ fmt03d id) in
  let out := out +++ " tag " +++ fmtSp3d bTag in
  let out :=
    if negb (invertbTag bTag =? bTagInverse)%Z
    then out +++ " bad inv " +++ fmtSp3d bTagInverse
    else out in
  if (id =? devDepMsgIn)%Z then
    let out := out +++ " sz " +++ decimal (leUint32 (slice buf 4 8)) in
    let attr := nth 8 buf 0%Z in
    let out := out +++ " D1=" +++ decimal (Z.shiftr (Z.land attr 2) 1) in
    let out := out +++ " EOM?=" +++ (if Z.testbit attr 0 then "yes" else "no") in
    out +++ " " +++ hexEncode (slice buf 9 12)
  else out +++ " " +++ hexEncode (slice buf 4 12).

(** [n] is a prefix of [s]; [n] occurs in [s]; [c] does not occur in [s]. *)
Fixpoint startsWith (n s : string) : bool :=
  match n, s with
  | EmptyString, _ => true
  | String a n', String b s' => Ascii.eqb a b && startsWith n' s'
  | String _ _, EmptyString => false
  end.

Fixpoint contains (n s : string) : bool :=
  startsWith n s
  || match s with
     | EmptyString => false
     | String _ s' => contains n s'
     end.

Fixpoint lacks (c : ascii) (s : string) : bool :=
  match s with
  | EmptyString => true
  | String a s' => negb (Ascii.eqb a c) && lacks c s'
  end.

End Trace.

(** * Properties *)

(** A list of 12 bytes, byte by byte. *)
Ltac split_header hdr H :=
  do 12 (destruct hdr as [|? hdr]; [discriminate H|]);
  destruct hdr; [clear H | discriminate H].


(** ** Arithmetic of the codec *)

Lemma leUint32_putUint32 (v : Z) :
  (0 <= v < 2 ^ 32)%Z -> leUint32 (putUint32 v) = v.
Proof.
  intros Hv. unfold leUint32, putUint32.
  cbn [nth].
  change (2 ^ 32)%Z with 4294967296%Z in Hv.
  Z.div_mod_to_equations. lia.
Qed.

Lemma uint32_small (n : nat) :
  n <= 500 -> uint32 (Z.of_nat n) = Z.of_nat n.
Proof.
  intros Hn. unfold uint32. apply Z.mod_small.
  change (2 ^ 32)%Z with 4294967296%Z. lia.
Qed.

Lemma nextbTag_range (t : byte) : (1 <= nextbTag t <= 255)%Z.
Proof.
  unfold nextbTag. pose proof (Z.mod_pos_bound t 255). lia.
Qed.

Lemma nextbTag_distinct (t : byte) :
  (1 <= t <= 255)%Z -> nextbTag t <> t.
Proof.
  unfold nextbTag. intros Ht.
  destruct (Z.eq_dec t 255) as [->|Hne].
  - change (255 mod 255)%Z with 0%Z. lia.
  - rewrite Z.mod_small by lia. lia.
Qed.

(** ** Transfers built by [Write] *)

Lemma pad4_app (x : list byte) :
  exists z, pad4 x = x ++ z /\ length z < 4 /\ length (x ++ z) mod 4 = 0.
Proof.
  unfold pad4.
  pose proof (Nat.mod_upper_bound (length x) 4 ltac:(lia)) as Hm.
  pose proof (Nat.div_mod_eq (length x) 4) as Hd.
  destruct (0 <? length x mod 4) eqn:E.
  - apply Nat.ltb_lt in E.
    exists (repeat 0%Z (4 - length x mod 4)). split; [reflexivity|].
    rewrite length_app, repeat_length. split; [lia|].
    replace (length x + (4 - length x mod 4))
      with ((length x / 4 + 1) * 4) by lia.
    apply Nat.Div0.mod_mul.
  - apply Nat.ltb_ge in E.
    exists []. rewrite app_nil_r. split; [reflexivity|].
    split; [simpl; lia | lia].
Qed.

Lemma frameOf_shape (t : byte) (c : list byte) :
  exists z,
    frameOf t c
    = encodeBulkOutHeader t (uint32 (Z.of_nat (length c))) true ++ c ++ z
    /\ length z < 4
    /\ length (frameOf t c) mod 4 = 0
    /\ length (frameOf t c) = usbtmcHeaderLen + length c + length z.
Proof.
  unfold frameOf.
  destruct (pad4_app
              (encodeBulkOutHeader t (uint32 (Z.of_nat (length c))) true ++ c))
    as (z & Hz & Hlt & Hmod).
  exists z. rewrite Hz, <- app_assoc.
  split; [reflexivity|]. split; [assumption|].
  split.
  - rewrite app_assoc. exact Hmod.
  - rewrite !length_app. unfold usbtmcHeaderLen. simpl. lia.
Qed.

Lemma frameOf_size (t : byte) (c : list byte) :
  length c <= 500 -> hdrTransferSize (frameOf t c) = Z.of_nat (length c).
Proof.
  intros Hc. destruct (frameOf_shape t c) as (z & -> & _).
  rewrite uint32_small by assumption.
  unfold hdrTransferSize, encodeBulkOutHeader, slice.
  cbn [app skipn firstn Nat.sub].
  apply leUint32_putUint32.
  change (2 ^ 32)%Z with 4294967296%Z. lia.
Qed.

Lemma frameOf_EOM (t : byte) (c : list byte) : hdrEOM (frameOf t c) = true.
Proof.
  destruct (frameOf_shape t c) as (z & -> & _).
  reflexivity.
Qed.

Lemma frameOf_tag (t : byte) (c : list byte) :
  hdrTag (frameOf t c) = t /\ hdrTagInverse (frameOf t c) = invertbTag t.
Proof.
  destruct (frameOf_shape t c) as (z & -> & _).
  split; reflexivity.
Qed.

Lemma frameOf_payload (t : byte) (c : list byte) :
  length c <= 500 -> sentPayload (frameOf t c) = c.
Proof.
  intros Hc. unfold sentPayload. rewrite frameOf_size by assumption.
  destruct (frameOf_shape t c) as (z & -> & _).
  rewrite Nat2Z.id.
  unfold encodeBulkOutHeader, putUint32, usbtmcHeaderLen.
  cbn [app skipn].
  rewrite firstn_app, firstn_all, Nat.sub_diag. cbn [firstn].
  apply app_nil_r.
Qed.

(** ** One pass of the loop of [Write] *)

Lemma length_slice_from (p : list byte) (pos n : nat) :
  pos + n <= length p -> length (slice p pos (pos + n)) = n.
Proof.
  intros H. unfold slice.
  rewrite length_firstn, length_skipn. lia.
Qed.

Lemma Write_chunk_eq (d : Device) (p : list byte) (pos : nat) :
  pos < length p ->
  let n := Nat.min (length p - pos) 500 in
  let u := usbDevice d in
  Write_chunk d p pos
  = (mkDevice
       (mkUSB (outLog u ++ [frameOf (nextbTag (bTag d)) (slice p pos (pos + n))])
          (tl (wrScript u)) (rdScript u) (inLog u))
       (nextbTag (bTag d)) (termChar d) (termCharEnabled d),
     n, wrOutcome u).
Proof.
  intros Hpos n u. unfold Write_chunk.
  change (maxTransferSize - bulkOutHeaderSize) with 500.
  rewrite length_skipn.
  assert (Hn : (if 500 <? length p - pos then 500 else length p - pos) = n).
  { unfold n. destruct (500 <? length p - pos) eqn:E.
    - apply Nat.ltb_lt in E. lia.
    - apply Nat.ltb_ge in E. lia. }
  rewrite Hn.
  assert (Hlen : length (slice p pos (pos + n)) = n).
  { apply length_slice_from. unfold n. lia. }
  change (bTag (set_bTag d (nextbTag (bTag d)))) with (nextbTag (bTag d)).
  change (usbDevice (set_bTag d (nextbTag (bTag d)))) with u.
  unfold frameOf, pad4. rewrite Hlen.
  unfold usbWrite, wrOutcome, set_usb, set_bTag. cbn [usbDevice bTag termChar termCharEnabled].
  fold u.
  destruct (wrScript u) as [|[e|] ws]; reflexivity.
Qed.

Lemma Write_loop_S (fuel : nat) (d : Device) (p : list byte) (pos : nat) :
  pos < length p ->
  Write_loop (S fuel) d p pos
  = (let '(d', thisLen, err) := Write_chunk d p pos in
     match err with
     | Some e => Some (d', (pos, Some e))
     | None => Write_loop fuel d' p (pos + thisLen)
     end).
Proof.
  intros H. apply Nat.ltb_lt in H. cbn [Write_loop]. rewrite H. reflexivity.
Qed.

Lemma Write_loop_done (fuel : nat) (d : Device) (p : list byte) (pos : nat) :
  length p <= pos -> Write_loop fuel d p pos = Some (d, (length p, None)).
Proof.
  intros H. apply Nat.ltb_ge in H.
  destruct fuel; cbn [Write_loop]; rewrite H; reflexivity.
Qed.

(** ** Chunks *)

Lemma chunkCount_step (R : nat) :
  0 < R -> chunkCount R = S (chunkCount (R - Nat.min R 500)).
Proof.
  intros HR. unfold chunkCount.
  pose proof (Nat.div_mod_eq (R + 499) 500) as H1.
  pose proof (Nat.mod_upper_bound (R + 499) 500 ltac:(lia)) as H2.
  pose proof (Nat.div_mod_eq (R - Nat.min R 500 + 499) 500) as H3.
  pose proof (Nat.mod_upper_bound (R - Nat.min R 500 + 499) 500 ltac:(lia)) as H4.
  lia.
Qed.

Lemma chunkCount_bounds (L k : nat) :
  500 * k < L <= 500 * S k -> chunkCount L = S k.
Proof.
  intros H. unfold chunkCount.
  pose proof (Nat.div_mod_eq (L + 499) 500) as H1.
  pose proof (Nat.mod_upper_bound (L + 499) 500 ltac:(lia)) as H2.
  lia.
Qed.

Lemma chunkCount_inv (L : nat) :
  0 < L -> 500 * (chunkCount L - 1) < L <= 500 * chunkCount L.
Proof.
  intros H. unfold chunkCount.
  pose proof (Nat.div_mod_eq (L + 499) 500) as H1.
  pose proof (Nat.mod_upper_bound (L + 499) 500 ltac:(lia)) as H2.
  lia.
Qed.

Lemma slice_first_chunk (p : list byte) (pos : nat) :
  slice p pos (pos + Nat.min (length p - pos) 500) = firstn 500 (skipn pos p).
Proof.
  unfold slice.
  replace (pos + Nat.min (length p - pos) 500 - pos)
    with (Nat.min (length p - pos) 500) by lia.
  destruct (Nat.le_gt_cases (length p - pos) 500) as [Hle|Hgt].
  - rewrite Nat.min_l by assumption.
    rewrite !firstn_all2 by (rewrite length_skipn; lia). reflexivity.
  - rewrite Nat.min_r by lia. reflexivity.
Qed.

Lemma skipn_next_chunk (p : list byte) (pos : nat) :
  skipn (pos + Nat.min (length p - pos) 500) p = skipn 500 (skipn pos p).
Proof.
  rewrite skipn_skipn.
  destruct (Nat.le_gt_cases (length p - pos) 500) as [Hle|Hgt].
  - rewrite Nat.min_l by assumption.
    rewrite !skipn_all2 by lia. reflexivity.
  - rewrite Nat.min_r by lia. f_equal. lia.
Qed.

Lemma length_chunksN (k : nat) (p : list byte) : length (chunksN k p) = k.
Proof.
  revert p. induction k as [|k IH]; intros p; simpl; [reflexivity|].
  now rewrite IH.
Qed.

Lemma firstn_plus (A : Type) (a b : nat) (l : list A) :
  firstn (a + b) l = firstn a l ++ firstn b (skipn a l).
Proof.
  revert l. induction a as [|a IH]; intros l.
  - reflexivity.
  - destruct l as [|x l].
    + simpl. now rewrite firstn_nil.
    + simpl. now rewrite IH.
Qed.

Lemma concat_chunksN (k : nat) (p : list byte) :
  concat (chunksN k p) = firstn (k * 500) p.
Proof.
  revert p. induction k as [|k IH]; intros p.
  - reflexivity.
  - cbn [chunksN concat]. rewrite IH.
    replace (S k * 500) with (500 + k * 500) by lia.
    now rewrite firstn_plus.
Qed.

Lemma chunksN_sizes (k : nat) (p : list byte) :
  500 * k < length p <= 500 * S k ->
  map (@length byte) (chunksN (S k) p) = repeat 500 k ++ [length p - 500 * k].
Proof.
  revert p. induction k as [|k IH]; intros p H.
  - cbn [chunksN map repeat app]. rewrite length_firstn. f_equal. lia.
  - change (chunksN (S (S k)) p)
      with (firstn 500 p :: chunksN (S k) (skipn 500 p)).
    cbn [map repeat app]. rewrite IH by (rewrite length_skipn; lia).
    rewrite length_firstn, length_skipn. f_equal; [lia|].
    do 2 f_equal. lia.
Qed.

Lemma chunks_concat (p : list byte) : concat (chunks p) = p.
Proof.
  unfold chunks. rewrite concat_chunksN.
  destruct (Nat.eq_dec (length p) 0) as [E|E].
  - destruct p; [reflexivity | discriminate].
  - apply firstn_all2. pose proof (chunkCount_inv (length p)). lia.
Qed.

Lemma chunks_sizes (p : list byte) :
  0 < length p ->
  map (@length byte) (chunks p)
  = repeat 500 (chunkCount (length p) - 1)
    ++ [length p - 500 * (chunkCount (length p) - 1)].
Proof.
  intros H. unfold chunks.
  pose proof (chunkCount_inv _ H) as Hb.
  destruct (chunkCount (length p)) as [|k] eqn:E; [lia|].
  replace (S k - 1) with k in * by lia.
  apply chunksN_sizes. lia.
Qed.

Lemma chunks_bounded (p : list byte) :
  0 < length p -> Forall (fun c => 0 < length c <= 500) (chunks p).
Proof.
  intros H.
  pose proof (chunks_sizes _ H) as Hs.
  pose proof (chunkCount_inv _ H) as Hb.
  assert (Hall : Forall (fun n => 0 < n <= 500) (map (@length byte) (chunks p))).
  { rewrite Hs. apply Forall_app. split.
    - apply Forall_forall. intros x Hx. apply repeat_spec in Hx. lia.
    - constructor; [lia | constructor]. }
  rewrite Forall_map in Hall. exact Hall.
Qed.

Lemma framesOf_sizes (t : byte) (cs : list (list byte)) :
  Forall (fun c => 0 < length c <= 500) cs ->
  map hdrTransferSize (framesOf t cs) = map (fun c => Z.of_nat (length c)) cs
  /\ map sentPayload (framesOf t cs) = cs
  /\ map hdrEOM (framesOf t cs) = map (fun _ => true) cs.
Proof.
  intros H. revert t. induction H as [|c cs Hc _ IH]; intros t.
  - repeat split.
  - destruct (IH (nextbTag t)) as (IH1 & IH2 & IH3).
    cbn [framesOf map].
    rewrite IH1, IH2, IH3, frameOf_size, frameOf_payload, frameOf_EOM by lia.
    repeat split.
Qed.

Lemma length_framesOf (t : byte) (cs : list (list byte)) :
  length (framesOf t cs) = length cs.
Proof.
  revert t. induction cs as [|c cs IH]; intros t; simpl; [reflexivity|].
  now rewrite IH.
Qed.

(** ** The loop of [Write] *)

Lemma acceptsWrites_outcome (u : USBDevice) :
  acceptsWrites u -> wrOutcome u = None /\ Forall (fun r => r = None) (tl (wrScript u)).
Proof.
  unfold acceptsWrites, wrOutcome. intros H.
  destruct (wrScript u) as [|r ws]; [split; [reflexivity | constructor]|].
  inversion H as [|? ? Hr Hws]; subst. split; [reflexivity | exact Hws].
Qed.

Lemma skipn_S_tl (A : Type) (k : nat) (l : list A) :
  skipn (S k) l = skipn k (tl l).
Proof.
  destruct l; [simpl; now rewrite skipn_nil | reflexivity].
Qed.

(** The loop runs to its end on a driver that accepts every write: one
    transfer per chunk, in order. *)
Lemma Write_loop_accepts (fuel : nat) :
  forall (d : Device) (p : list byte) (pos : nat),
    length p - pos <= fuel ->
    acceptsWrites (usbDevice d) ->
    let u := usbDevice d in
    let k := chunkCount (length p - pos) in
    Write_loop fuel d p pos
    = Some (mkDevice
              (mkUSB (outLog u ++ framesOf (bTag d) (chunksN k (skipn pos p)))
                 (skipn k (wrScript u)) (rdScript u) (inLog u))
              (tagAfter k (bTag d)) (termChar d) (termCharEnabled d),
            (length p, None)).
Proof.
  induction fuel as [|fuel IH]; intros d p pos Hfuel Hacc u k.
  - rewrite Write_loop_done by lia.
    assert (Hk : k = 0).
    { subst k. replace (length p - pos) with 0 by lia. reflexivity. }
    rewrite Hk. subst u. destruct d as [[ol ws rs il] t tc tce].
    cbn [chunksN framesOf skipn tagAfter usbDevice bTag termChar
           termCharEnabled outLog wrScript rdScript inLog].
    now rewrite app_nil_r.
  - destruct (Nat.le_gt_cases (length p) pos) as [Hdone|Hpos].
    + rewrite Write_loop_done by lia.
      assert (Hk : k = 0).
      { subst k. replace (length p - pos) with 0 by lia. reflexivity. }
      rewrite Hk. subst u. destruct d as [[ol ws rs il] t tc tce].
      cbn [chunksN framesOf skipn tagAfter usbDevice bTag termChar
             termCharEnabled outLog wrScript rdScript inLog].
      now rewrite app_nil_r.
    + rewrite Write_loop_S, Write_chunk_eq by assumption.
      destruct (acceptsWrites_outcome _ Hacc) as [Hout Htl].
      subst u. rewrite Hout.
      assert (Hk : k = S (chunkCount
                            (length p - (pos + Nat.min (length p - pos) 500)))).
      { subst k. rewrite chunkCount_step by lia. do 2 f_equal. lia. }
      rewrite Hk. clear Hk k.
      rewrite IH; [| lia | exact Htl].
      cbn [usbDevice bTag termChar termCharEnabled outLog wrScript rdScript inLog].
      cbn [chunksN framesOf tagAfter].
      rewrite slice_first_chunk, skipn_next_chunk.
      rewrite <- app_assoc. cbn [app].
      rewrite (skipn_S_tl _ _ (wrScript (usbDevice d))).
      reflexivity.
Qed.

(** The loop stops at the first write the driver refuses. *)
Lemma Write_loop_fails (i : nat) :
  forall (fuel : nat) (d : Device) (p : list byte) (pos : nat)
         (e : error) (ws : list (option error)),
    wrScript (usbDevice d) = repeat None i ++ Some e :: ws ->
    pos + 500 * i < length p ->
    length p - pos <= fuel ->
    let u := usbDevice d in
    Write_loop fuel d p pos
    = Some (mkDevice
              (mkUSB (outLog u ++ framesOf (bTag d) (chunksN (S i) (skipn pos p)))
                 ws (rdScript u) (inLog u))
              (tagAfter (S i) (bTag d)) (termChar d) (termCharEnabled d),
            (pos + 500 * i, Some e)).
Proof.
  induction i as [|i IH]; intros fuel d p pos e ws Hws Hpos Hfuel u.
  - destruct fuel as [|fuel]; [lia|].
    rewrite Write_loop_S, Write_chunk_eq by lia.
    subst u. unfold wrOutcome. rewrite Hws. cbn [repeat app tl].
    rewrite slice_first_chunk. rewrite Nat.mul_0_r, Nat.add_0_r.
    reflexivity.
  - destruct fuel as [|fuel]; [lia|].
    rewrite Write_loop_S, Write_chunk_eq by lia.
    subst u. unfold wrOutcome. rewrite Hws. cbn [repeat app tl].
    rewrite (IH fuel _ p _ e ws).
    + cbn [usbDevice bTag termChar termCharEnabled outLog wrScript rdScript inLog].
      change (chunksN (S (S i)) (skipn pos p))
        with (firstn 500 (skipn pos p) :: chunksN (S i) (skipn 500 (skipn pos p))).
      cbn [framesOf tagAfter].
      rewrite slice_first_chunk, skipn_next_chunk.
      rewrite <- app_assoc. cbn [app].
      replace (Nat.min (length p - pos) 500) with 500 by lia.
      do 3 f_equal. lia.
    + reflexivity.
    + cbn [usbDevice]. lia.
    + lia.
Qed.

Lemma Write_loop_total (fuel : nat) :
  forall (d : Device) (p : list byte) (pos : nat),
    length p - pos <= fuel -> exists r, Write_loop fuel d p pos = Some r.
Proof.
  induction fuel as [|fuel IH]; intros d p pos Hfuel.
  - rewrite Write_loop_done by lia. eauto.
  - destruct (Nat.le_gt_cases (length p) pos) as [Hdone|Hpos].
    + rewrite Write_loop_done by lia. eauto.
    + rewrite Write_loop_S, Write_chunk_eq by assumption.
      destruct (wrOutcome (usbDevice d)); [eauto|].
      apply IH. lia.
Qed.

(** [Write] always returns. *)
Lemma Write_total (d : Device) (p : list byte) : exists r, Write d p = Some r.
Proof.
  apply Write_loop_total. lia.
Qed.

(** [Write] on a driver that accepts every write. *)
Lemma Write_accepted (d : Device) (p : list byte) :
  acceptsWrites (usbDevice d) ->
  exists d',
    Write d p = Some (d', (length p, None))
    /\ outLog (usbDevice d')
       = outLog (usbDevice d) ++ framesOf (bTag d) (chunks p).
Proof.
  intros Hacc.
  pose proof (Write_loop_accepts (length p) d p 0 ltac:(lia) Hacc) as Hrun.
  cbn zeta in Hrun. rewrite Nat.sub_0_r in Hrun. cbn [skipn] in Hrun.
  eexists. split; [exact Hrun | reflexivity].
Qed.

(** [Write] on a driver that refuses the transfer after the first [i]. *)
Lemma Write_refused (d : Device) (p : list byte) (i : nat)
  (e : error) (ws : list (option error)) :
  wrScript (usbDevice d) = repeat None i ++ Some e :: ws ->
  500 * i < length p ->
  exists d',
    Write d p = Some (d', (500 * i, Some e))
    /\ outLog (usbDevice d')
       = outLog (usbDevice d) ++ framesOf (bTag d) (chunksN (S i) p)
    /\ wrScript (usbDevice d') = ws.
Proof.
  intros Hws Hi.
  pose proof (Write_loop_fails i (length p) d p 0 e ws Hws ltac:(lia) ltac:(lia))
    as Hrun.
  cbn zeta in Hrun. cbn [skipn Nat.add] in Hrun.
  eexists. split; [exact Hrun|]. split; reflexivity.
Qed.

(** ** Claims about [Write] *)

(** C3 (the code marks every chunk): on a payload of 501 bytes and a driver
    that accepts every write, [Write] issues two transfers, and the EOM bit is
    set in the header of both, the first one included; the claim wants it
    clear in every header but the last. *)
Lemma Write_EOM_on_every_chunk :
  exists d',
    Write (defaultDevice idleUSB) (repeat 0%Z 501) = Some (d', (501, None))
    /\ map hdrTransferSize (outLog (usbDevice d')) = [500%Z; 1%Z]
    /\ map hdrEOM (outLog (usbDevice d')) = [true; true].
Proof.
  eexists. split; [vm_compute; reflexivity|].
  split; vm_compute; reflexivity.
Qed.

(** C4, as amended: [Write] of an empty payload issues no transfer: it leaves
    the device as it is, tag and driver included, and returns 0 and no
    error. *)
Theorem Write_empty_payload (d : Device) :
  Write d [] = Some (d, (0, None)).
Proof.
  reflexivity.
Qed.

(** C4, counterexample: after [Write] of the empty payload on an idle device
    the driver has been handed no transfer at all, where the claim wants
    exactly one. *)
Lemma Write_empty_payload_no_transfer :
  exists d',
    Write (defaultDevice idleUSB) [] = Some (d', (0, None))
    /\ length (outLog (usbDevice d')) = 0
    /\ bTag d' = bTag (defaultDevice idleUSB).
Proof.
  eexists. split; [reflexivity|]. split; reflexivity.
Qed.

(** C5: on a driver that accepts every write, [Write] of a payload of [L > 0]
    bytes issues [ceil(L/500)] transfers, one per chunk of the payload in
    order; every chunk has at most 500 bytes, the size a header declares is
    the length of the chunk that follows it, and the chunks put together are
    the payload.  A payload of 1300 bytes gives declared sizes 500, 500,
    300. *)
Theorem Write_chunking (d : Device) (p : list byte) :
  0 < length p ->
  acceptsWrites (usbDevice d) ->
  exists d',
    Write d p = Some (d', (length p, None))
    /\ outLog (usbDevice d')
       = outLog (usbDevice d) ++ framesOf (bTag d) (chunks p)
    /\ length (framesOf (bTag d) (chunks p)) = (length p + 499) / 500
    /\ concat (chunks p) = p
    /\ Forall (fun c => 0 < length c <= 500) (chunks p)
    /\ map hdrTransferSize (framesOf (bTag d) (chunks p))
       = map (fun c => Z.of_nat (length c)) (chunks p)
    /\ map sentPayload (framesOf (bTag d) (chunks p)) = chunks p
    /\ (length p = 1300 ->
        map hdrTransferSize (framesOf (bTag d) (chunks p))
        = [500%Z; 500%Z; 300%Z]).
Proof.
  intros HL Hacc.
  destruct (Write_accepted d p Hacc) as (d' & Hrun & Hlog).
  exists d'. split; [exact Hrun|].
  pose proof (chunks_bounded p HL) as Hb.
  destruct (framesOf_sizes (bTag d) (chunks p) Hb) as (Hs & Hp & _).
  split; [exact Hlog|].
  split; [rewrite length_framesOf; apply length_chunksN|].
  split; [apply chunks_concat|].
  split; [exact Hb|].
  split; [exact Hs|].
  split; [exact Hp|].
  intros H1300. rewrite Hs.
  rewrite <- map_map, (chunks_sizes p HL), H1300.
  reflexivity.
Qed.

(** A payload of 1300 bytes on an idle device. *)
Lemma Write_chunking_witness :
  exists d',
    Write (defaultDevice idleUSB) (repeat 7%Z 1300) = Some (d', (1300, None))
    /\ map hdrTransferSize (outLog (usbDevice d')) = [500%Z; 500%Z; 300%Z].
Proof.
  destruct (Write_chunking (defaultDevice idleUSB) (repeat 7%Z 1300))
    as (d' & Hw & Hlog & _ & _ & _ & _ & _ & Hsz).
  - rewrite repeat_length. lia.
  - constructor.
  - exists d'. split.
    + rewrite Hw, repeat_length. reflexivity.
    + rewrite Hlog. apply Hsz. apply repeat_length.
Defined.

(** C6: when the driver accepts the first [i] transfers and refuses the next
    one with the error [e], [Write] makes no further transfer and returns the
    number of payload bytes of the [i] chunks sent before, [500 * i], with
    [e] itself. *)
Theorem Write_stops_at_failure (d : Device) (p : list byte) (i : nat)
  (e : error) (ws : list (option error)) :
  wrScript (usbDevice d) = repeat None i ++ Some e :: ws ->
  500 * i < length p ->
  exists d',
    Write d p = Some (d', (500 * i, Some e))
    /\ length (concat (chunksN i p)) = 500 * i
    /\ outLog (usbDevice d')
       = outLog (usbDevice d) ++ framesOf (bTag d) (chunksN (S i) p)
    /\ length (outLog (usbDevice d')) = length (outLog (usbDevice d)) + S i
    /\ wrScript (usbDevice d') = ws.
Proof.
  intros Hws Hi.
  destruct (Write_refused d p i e ws Hws Hi) as (d' & Hrun & Hlog & Hrest).
  exists d'. split; [exact Hrun|].
  split.
  - rewrite concat_chunksN, length_firstn. lia.
  - split; [exact Hlog|]. split; [|exact Hrest].
    rewrite Hlog, length_app, length_framesOf, length_chunksN. reflexivity.
Qed.

(** A payload of 1300 bytes on a driver that refuses the second transfer. *)
Lemma Write_stops_at_failure_witness :
  exists d',
    Write (defaultDevice (failingUSB [None; Some (ErrTransport 7); None]))
      (repeat 7%Z 1300)
    = Some (d', (500, Some (ErrTransport 7)))
    /\ length (outLog (usbDevice d')) = 2
    /\ wrScript (usbDevice d') = [None].
Proof.
  destruct (Write_stops_at_failure
              (defaultDevice (failingUSB [None; Some (ErrTransport 7); None]))
              (repeat 7%Z 1300) 1 (ErrTransport 7) [None])
    as (d' & Hw & _ & _ & Hn & Hs).
  - reflexivity.
  - rewrite repeat_length. lia.
  - exists d'. split; [exact Hw|]. split; [exact Hn | exact Hs].
Defined.

(** ** The driver and the buffers of the read path *)

Lemma length_copy (A : Type) (dst src : list A) :
  length (copy dst src) = length dst.
Proof.
  unfold copy. rewrite length_app, length_firstn, length_skipn. lia.
Qed.

Lemma copy_fits (A : Type) (dst src : list A) :
  length src <= length dst -> copy dst src = src ++ skipn (length src) dst.
Proof.
  intros H. unfold copy. now rewrite firstn_all2 by assumption.
Qed.

Lemma tempSize_bounds (lenp : nat) :
  lenp + 12 <= tempSize lenp /\ tempSize lenp mod 512 = 0.
Proof.
  unfold tempSize, usbtmcHeaderLen.
  pose proof (Nat.mod_upper_bound (lenp + 12) 512 ltac:(lia)) as Hm.
  pose proof (Nat.div_mod_eq (lenp + 12) 512) as Hd.
  destruct ((lenp + 12) mod 512 =? 0) eqn:E; cbn [negb].
  - apply Nat.eqb_eq in E. split; [lia | exact E].
  - apply Nat.eqb_neq in E. split; [lia|].
    replace (lenp + 12 + (512 - (lenp + 12) mod 512))
      with (((lenp + 12) / 512 + 1) * 512) by lia.
    apply Nat.Div0.mod_mul.
Qed.

Lemma usbWrite_accepted (u : USBDevice) (data : list byte) :
  wrOutcome u = None ->
  usbWrite u data
  = (mkUSB (outLog u ++ [data]) (tl (wrScript u)) (rdScript u) (inLog u),
     (length data, None)).
Proof.
  unfold wrOutcome, usbWrite.
  destruct (wrScript u) as [|[e|] ws]; intros H; [reflexivity | discriminate | reflexivity].
Qed.

Lemma usbRead_eq (u : USBDevice) (buf data : list byte) (err : option error)
  (rest : list (list byte * option error)) :
  rdScript u = (data, err) :: rest ->
  usbRead u buf
  = (mkUSB (outLog u) (wrScript u) rest (inLog u ++ [length buf]),
     copy buf data, (length data, err)).
Proof.
  intros H. unfold usbRead. now rewrite H.
Qed.

Lemma length_usbRead (u : USBDevice) (buf : list byte) :
  length (snd (fst (usbRead u buf))) = length buf.
Proof.
  unfold usbRead. destruct (rdScript u) as [|[data err] rest]; cbn [fst snd].
  - reflexivity.
  - apply length_copy.
Qed.

Lemma length_readRemoveHeader (d : Device) (p : list byte) :
  length (snd (fst (readRemoveHeader d p))) = length p.
Proof.
  unfold readRemoveHeader.
  destruct (usbRead (usbDevice d) _) as [[u' temp] [n err]].
  destruct err as [e|]; [reflexivity|].
  destruct (n <? usbtmcHeaderLen); [reflexivity|].
  cbn [fst snd].
  destruct (0 <? _); [apply length_copy | reflexivity].
Qed.

Lemma length_readKeepHeader (d : Device) (p : list byte) :
  length (snd (fst (readKeepHeader d p))) = length p.
Proof.
  unfold readKeepHeader.
  pose proof (length_usbRead (usbDevice d) p) as H.
  destruct (usbRead (usbDevice d) p) as [[u' p'] r]. exact H.
Qed.

(** ** One pass of the loop of [doRead] *)

Lemma doRead_loop_done (fuel : nat) (d : Device) (p : list byte)
  (pos transfer : nat) :
  length p <= pos ->
  doRead_loop fuel d p pos transfer = Ok (d, p, (Nat.min pos transfer, None)).
Proof.
  intros H. apply Nat.ltb_ge in H.
  destruct fuel; cbn [doRead_loop]; rewrite H; reflexivity.
Qed.

Lemma doRead_loop_first (fuel : nat) (d : Device) (p : list byte)
  (transfer : nat) :
  0 < length p ->
  doRead_loop (S fuel) d p 0 transfer
  = (let '(d1, p1, (resp, transfer1, _, err)) := readRemoveHeader d p in
     match err with
     | Some e => Ok (d1, p1, (0, Some e))
     | None =>
         if resp =? 0 then Ok (d1, p1, (Nat.min 0 transfer1, None))
         else if transfer1 <=? resp
              then Ok (d1, p1, (Nat.min resp transfer1, None))
              else doRead_loop fuel d1 p1 resp transfer1
     end).
Proof.
  intros H. apply Nat.ltb_lt in H. cbn [doRead_loop]. rewrite H.
  cbn [Nat.eqb skipn firstn app Nat.leb negb Nat.add].
  destruct (readRemoveHeader d p) as [[d1 p1] [[[resp transfer1] a] err]].
  reflexivity.
Qed.

Lemma doRead_loop_next (fuel : nat) (d : Device) (p : list byte)
  (pos transfer : nat) :
  0 < pos < length p ->
  doRead_loop (S fuel) d p pos transfer
  = (let '(d1, sub, (resp, err)) := readKeepHeader d (skipn pos p) in
     let p1 := firstn pos p ++ sub in
     if negb (pos <=? dumpLenOf (length p) pos resp)
     then Panic (SliceBounds pos (dumpLenOf (length p) pos resp))
     else
       match err with
       | Some e => Ok (d1, p1, (pos, Some e))
       | None =>
           if resp =? 0 then Ok (d1, p1, (Nat.min pos transfer, None))
           else if transfer <=? pos + resp
                then Ok (d1, p1, (Nat.min (pos + resp) transfer, None))
                else doRead_loop fuel d1 p1 (pos + resp) transfer
       end).
Proof.
  intros [H0 H]. apply Nat.ltb_lt in H. cbn [doRead_loop]. rewrite H.
  destruct pos as [|pos]; [lia|]. cbn [Nat.eqb].
  destruct (readKeepHeader d (skipn (S pos) p)) as [[d1 sub] [resp err]].
  reflexivity.
Qed.

(** The loop of [doRead] ends within [len(p)] passes. *)
Lemma doRead_loop_total (fuel : nat) :
  forall (d : Device) (p : list byte) (pos transfer : nat),
    length p - pos <= fuel ->
    doRead_loop fuel d p pos transfer <> OutOfFuel.
Proof.
  induction fuel as [|fuel IH]; intros d p pos transfer Hfuel.
  - rewrite doRead_loop_done by lia. discriminate.
  - destruct (Nat.le_gt_cases (length p) pos) as [Hdone|Hpos].
    { rewrite doRead_loop_done by lia. discriminate. }
    destruct (Nat.eq_dec pos 0) as [->|Hne].
    + rewrite doRead_loop_first by assumption.
      pose proof (length_readRemoveHeader d p) as Hlen.
      destruct (readRemoveHeader d p) as [[d1 p1] [[[resp transfer1] a] err]].
      cbn [fst snd] in Hlen.
      destruct err as [e|]; [discriminate|].
      destruct (resp =? 0) eqn:E0; [discriminate|].
      destruct (transfer1 <=? resp); [discriminate|].
      apply Nat.eqb_neq in E0. apply IH. lia.
    + rewrite doRead_loop_next by lia.
      pose proof (length_readKeepHeader d (skipn pos p)) as Hlen.
      destruct (readKeepHeader d (skipn pos p)) as [[d1 sub] [resp err]].
      cbn [fst snd] in Hlen. cbn zeta.
      destruct (negb _); [discriminate|].
      destruct err as [e|]; [discriminate|].
      destruct (resp =? 0) eqn:E0; [discriminate|].
      destruct (transfer <=? pos + resp); [discriminate|].
      apply Nat.eqb_neq in E0. apply IH.
      rewrite length_app, length_firstn, Hlen, length_skipn. lia.
Qed.

(** [doRead] always ends: with its results or with a panic. *)
Lemma doRead_total (d : Device) (p : list byte) (useTermChar : bool) :
  doRead d p useTermChar <> OutOfFuel.
Proof.
  unfold doRead.
  destruct (usbWrite _ _) as [u' [n err]].
  destruct err as [e|]; [discriminate|].
  apply doRead_loop_total. lia.
Qed.

(** ** The first transfer of a response *)

Lemma readRemoveHeader_short (d : Device) (p data : list byte)
  (err : option error) (rest : list (list byte * option error)) :
  rdScript (usbDevice d) = (data, err) :: rest ->
  length data < 12 ->
  let u := usbDevice d in
  readRemoveHeader d p
  = (set_usb d (mkUSB (outLog u) (wrScript u) rest
                  (inLog u ++ [tempSize (length p)])),
     p,
     (0, 0, 0%Z,
      Some (match err with
            | Some e => e
            | None => ErrShortRead (length data)
            end))).
Proof.
  intros Hrd Hlen u. unfold readRemoveHeader.
  rewrite (usbRead_eq _ _ _ _ _ Hrd), repeat_length.
  destruct err as [e|]; [reflexivity|].
  apply Nat.ltb_lt in Hlen.
  change (length data <? usbtmcHeaderLen) with (length data <? 12).
  rewrite Hlen. reflexivity.
Qed.

Lemma readRemoveHeader_ok (d : Device) (p hdr d1 : list byte)
  (rest : list (list byte * option error)) :
  rdScript (usbDevice d) = (hdr ++ d1, None) :: rest ->
  length hdr = 12 ->
  length d1 <= length p ->
  let u := usbDevice d in
  readRemoveHeader d p
  = (set_usb d (mkUSB (outLog u) (wrScript u) rest
                  (inLog u ++ [tempSize (length p)])),
     d1 ++ skipn (length d1) p,
     (length d1, Z.to_nat (hdrTransferSize hdr), hdrAttr hdr, None)).
Proof.
  intros Hrd Hhdr Hd1 u. unfold readRemoveHeader.
  rewrite (usbRead_eq _ _ _ _ _ Hrd), repeat_length.
  change (if negb ((length p + usbtmcHeaderLen) mod 512 =? 0)
          then length p + usbtmcHeaderLen
               + (512 - (length p + usbtmcHeaderLen) mod 512)
          else length p + usbtmcHeaderLen)
    with (tempSize (length p)).
  destruct (tempSize_bounds (length p)) as [Hts _].
  set (ts := tempSize (length p)) in *.
  rewrite length_copy, repeat_length.
  rewrite (copy_fits _ (repeat 0%Z ts) (hdr ++ d1))
    by (rewrite length_app, repeat_length; lia).
  rewrite length_app, Hhdr.
  replace (12 + length d1 <? usbtmcHeaderLen) with false
    by (symmetry; apply Nat.ltb_ge; unfold usbtmcHeaderLen; lia).
  unfold usbtmcHeaderLen.
  replace (Nat.min (ts - 12) (12 + length d1 - 12)) with (length d1) by lia.
  assert (Hslice :
    slice ((hdr ++ d1) ++ skipn (12 + length d1) (repeat 0%Z ts)) 12
      (12 + length d1) = d1).
  { unfold slice. rewrite <- app_assoc.
    rewrite skipn_app, skipn_all2, Hhdr, Nat.sub_diag by lia.
    cbn [app skipn].
    replace (12 + length d1 - 12) with (length d1) by lia.
    rewrite firstn_app, firstn_all, Nat.sub_diag. cbn [firstn].
    apply app_nil_r. }
  rewrite Hslice.
  assert (Hp : (if 0 <? length d1 then copy p d1 else p)
               = d1 ++ skipn (length d1) p).
  { destruct d1 as [|x d1]; [reflexivity|].
    cbn [length Nat.ltb Nat.leb]. apply copy_fits. exact Hd1. }
  rewrite Hp.
  replace (12 + length d1 - 12) with (length d1) by lia.
  split_header hdr Hhdr.
  reflexivity.
Qed.

(** ** Claims about single reads *)

(** C7: when the header of the read request is accepted and the first raw
    read delivers fewer than 12 bytes, [doRead] returns zero bytes and an
    error: the error of a short read when the driver reports none, the
    driver's own otherwise.  The caller's buffer is left as it was. *)
Theorem doRead_short_first_read (d : Device) (p : list byte)
  (useTermChar : bool) (data : list byte) (err : option error)
  (rest : list (list byte * option error)) :
  0 < length p ->
  wrOutcome (usbDevice d) = None ->
  rdScript (usbDevice d) = (data, err) :: rest ->
  length data < 12 ->
  exists d',
    doRead d p useTermChar
    = Ok (d', p,
          (0, Some (match err with
                    | Some e => e
                    | None => ErrShortRead (length data)
                    end)))
    /\ rdScript (usbDevice d') = rest.
Proof.
  intros Hp Hw Hrd Hlen. unfold doRead.
  cbn [usbDevice set_bTag]. rewrite (usbWrite_accepted _ _ Hw).
  destruct (length p) as [|fuel] eqn:EL; [lia|].
  rewrite doRead_loop_first by lia.
  rewrite (readRemoveHeader_short _ p data err rest) by assumption.
  eexists. split; reflexivity.
Qed.

(** A first raw read of 3 bytes. *)
Lemma doRead_short_first_read_witness :
  exists d',
    doRead (defaultDevice (respondingUSB [([2%Z; 2%Z; 253%Z], None)]))
      (repeat 0%Z 20) true
    = Ok (d', repeat 0%Z 20, (0, Some (ErrShortRead 3)))
    /\ rdScript (usbDevice d') = [].
Proof.
  apply (doRead_short_first_read
           (defaultDevice (respondingUSB [([2%Z; 2%Z; 253%Z], None)]))
           (repeat 0%Z 20) true [2%Z; 2%Z; 253%Z] None []).
  - rewrite repeat_length. lia.
  - reflexivity.
  - reflexivity.
  - simpl. lia.
Defined.

(** C10: when the header of the read request is accepted, [doRead] on an
    empty buffer advances the tag once, hands the driver one request header
    (asking for 0 bytes), reads nothing from the device and returns zero
    bytes and no error. *)
Theorem doRead_empty_buffer (d : Device) (useTermChar : bool) :
  wrOutcome (usbDevice d) = None ->
  exists d',
    doRead d [] useTermChar = Ok (d', [], (0, None))
    /\ bTag d' = nextbTag (bTag d)
    /\ outLog (usbDevice d')
       = outLog (usbDevice d)
         ++ [encodeMsgInBulkOutHeader (nextbTag (bTag d)) 0
               (useTermChar && termCharEnabled d) (termChar d)]
    /\ inLog (usbDevice d') = inLog (usbDevice d)
    /\ rdScript (usbDevice d') = rdScript (usbDevice d).
Proof.
  intros Hw. unfold doRead.
  cbn [usbDevice set_bTag]. rewrite (usbWrite_accepted _ _ Hw).
  cbn [length doRead_loop Nat.ltb Nat.leb].
  eexists. split; [reflexivity|].
  repeat split.
Qed.

(** An empty buffer on a device with a response pending. *)
Lemma doRead_empty_buffer_witness :
  exists d',
    doRead (defaultDevice (respondingUSB [([], None)])) [] true
    = Ok (d', [], (0, None))
    /\ bTag d' = 2%Z
    /\ outLog (usbDevice d')
       = [[2%Z; 2%Z; 253%Z; 0%Z; 0%Z; 0%Z; 0%Z; 0%Z; 2%Z; 10%Z; 0%Z; 0%Z]]
    /\ inLog (usbDevice d') = []
    /\ rdScript (usbDevice d') = [([], None)].
Proof.
  apply (doRead_empty_buffer (defaultDevice (respondingUSB [([], None)])) true).
  reflexivity.
Defined.

(** C8 (the code panics): a buffer of 8 bytes, a first transfer that declares
    8 bytes and carries 4 of them, then a raw read that delivers nothing.  The
    second pass evaluates [p[4:0]] for the trace and panics; the claim wants
    the 4 bytes returned without error. *)
Lemma doRead_zero_length_continuation :
  doRead
    (defaultDevice
       (respondingUSB
          [(respHeader 2 253 8 ++ [65%Z; 66%Z; 67%Z; 68%Z], None); ([], None)]))
    (repeat 0%Z 8) true
  = Panic (SliceBounds 4 0).
Proof.
  vm_compute. reflexivity.
Qed.

(** ** The tag bytes of a response header *)

(** [readRemoveHeader] never looks at bytes 1 and 2 of what it reads. *)
Lemma readRemoveHeader_tag_blind
  (ol : list (list byte)) (ws : list (option error)) (il : list nat)
  (tg tc : byte) (tce : bool) (p : list byte)
  (b0 t ti t' ti' : byte) (body : list byte) (e : option error)
  (rs : list (list byte * option error)) :
  readRemoveHeader
    (mkDevice (mkUSB ol ws ((b0 :: t :: ti :: body, e) :: rs) il) tg tc tce) p
  = readRemoveHeader
      (mkDevice (mkUSB ol ws ((b0 :: t' :: ti' :: body, e) :: rs) il) tg tc tce) p.
Proof.
  unfold readRemoveHeader, usbRead.
  cbn [usbDevice rdScript outLog wrScript inLog].
  change (if negb ((length p + usbtmcHeaderLen) mod 512 =? 0)
          then length p + usbtmcHeaderLen
               + (512 - (length p + usbtmcHeaderLen) mod 512)
          else length p + usbtmcHeaderLen)
    with (tempSize (length p)).
  destruct (tempSize_bounds (length p)) as [Hts _].
  destruct (tempSize (length p)) as [|[|[|ts]]]; [lia | lia | lia |].
  unfold copy. rewrite !repeat_length.
  cbn [firstn length app].
  destruct e as [e|]; [reflexivity|].
  unfold slice, usbtmcHeaderLen.
  cbn [skipn nth Nat.sub Nat.add].
  reflexivity.
Qed.

Lemma readRemoveHeader_accepts (d : Device) (p hdr d1 : list byte)
  (rest : list (list byte * option error)) :
  rdScript (usbDevice d) = (hdr ++ d1, None) :: rest ->
  length hdr = 12 ->
  exists d' p',
    readRemoveHeader d p
    = (d', p', (length d1, Z.to_nat (hdrTransferSize hdr), hdrAttr hdr, None)).
Proof.
  intros Hrd Hhdr. unfold readRemoveHeader.
  rewrite (usbRead_eq _ _ _ _ _ Hrd), repeat_length.
  change (if negb ((length p + usbtmcHeaderLen) mod 512 =? 0)
          then length p + usbtmcHeaderLen
               + (512 - (length p + usbtmcHeaderLen) mod 512)
          else length p + usbtmcHeaderLen)
    with (tempSize (length p)).
  destruct (tempSize_bounds (length p)) as [Hts _].
  set (ts := tempSize (length p)) in *.
  rewrite length_app, Hhdr.
  replace (12 + length d1 <? usbtmcHeaderLen) with false
    by (symmetry; apply Nat.ltb_ge; unfold usbtmcHeaderLen; lia).
  unfold usbtmcHeaderLen.
  replace (12 + length d1 - 12) with (length d1) by lia.
  do 2 eexists. f_equal. f_equal.
  unfold copy. rewrite repeat_length.
  rewrite firstn_app, Hhdr, (firstn_all2 hdr) by lia.
  split_header hdr Hhdr.
  destruct ts as [|[|[|[|[|[|[|[|[|[|[|[|ts]]]]]]]]]]]]; try lia.
  reflexivity.
Qed.

(** C1, as amended: the read operation does not check the tag inverse of a
    received header.  What the caller of [doRead] gets does not depend on
    bytes 1 and 2 (tag and tag inverse) of the first transfer, and
    [readRemoveHeader] returns no error for any full header that the driver
    delivers without error, whatever these two bytes are. *)
Theorem doRead_ignores_tag_inverse
  (d : Device) (p : list byte) (useTermChar : bool)
  (b0 t ti t' ti' b3 b4 b5 b6 b7 b8 b9 b10 b11 : byte) (body payload : list byte)
  (e : option error) (rs : list (list byte * option error)) :
  seenByCaller
    (doRead (withReads d ((b0 :: t :: ti :: body, e) :: rs)) p useTermChar)
  = seenByCaller
      (doRead (withReads d ((b0 :: t' :: ti' :: body, e) :: rs)) p useTermChar)
  /\ exists d' p',
       readRemoveHeader
         (withReads d
            (([b0; t; ti; b3; b4; b5; b6; b7; b8; b9; b10; b11] ++ payload,
              None) :: rs)) p
       = (d', p',
          (length payload, Z.to_nat (leUint32 [b4; b5; b6; b7]), b8, None)).
Proof.
  split.
  - destruct d as [[ol ws rd il] tg tc tce].
    unfold doRead, withReads, set_usb, set_bTag, usbWrite.
    cbn [usbDevice bTag termChar termCharEnabled outLog wrScript rdScript inLog].
    destruct ws as [|[e'|] ws]; cbn [tl]; try reflexivity.
    + destruct p as [|x p]; [reflexivity|].
      cbn [length]. rewrite !doRead_loop_first by (cbn [length]; lia).
      now rewrite (readRemoveHeader_tag_blind _ _ _ _ _ _ _ b0 t ti t' ti').
    + destruct p as [|x p]; [reflexivity|].
      cbn [length]. rewrite !doRead_loop_first by (cbn [length]; lia).
      now rewrite (readRemoveHeader_tag_blind _ _ _ _ _ _ _ b0 t ti t' ti').
  - apply (readRemoveHeader_accepts _ p
             [b0; t; ti; b3; b4; b5; b6; b7; b8; b9; b10; b11] payload rs);
      reflexivity.
Qed.

(** C1, counterexample: a first transfer with tag 2 and tag inverse 0 (not
    [0xFF - 2]), declaring and carrying 4 bytes: [doRead] hands the 4 bytes
    to the caller with no error. *)
Lemma doRead_accepts_bad_tag_inverse :
  (hdrTagInverse (respHeader 2 0 4)
   =? invertbTag (hdrTag (respHeader 2 0 4)))%Z = false
  /\ seenByCaller
       (doRead
          (defaultDevice
             (respondingUSB
                [(respHeader 2 0 4 ++ [65%Z; 66%Z; 67%Z; 68%Z], None)]))
          (repeat 0%Z 4) true)
     = Ok ([65%Z; 66%Z; 67%Z; 68%Z], (4, None)).
Proof.
  split; vm_compute; reflexivity.
Qed.

(** ** Reassembly over several raw reads *)

Lemma firstn_exact (A : Type) (a b : list A) (n : nat) :
  length a = n -> firstn n (a ++ b) = a.
Proof.
  intros <-. rewrite firstn_app, firstn_all, Nat.sub_diag. cbn [firstn].
  apply app_nil_r.
Qed.

Lemma skipn_exact_plus (A : Type) (a b : list A) (n k : nat) :
  length a = n -> skipn (n + k) (a ++ b) = skipn k b.
Proof.
  intros <-. rewrite skipn_app, skipn_all2 by lia.
  cbn [app]. f_equal. lia.
Qed.

(** [doRead] never changes the length of the caller's buffer. *)
Lemma doRead_loop_length (fuel : nat) :
  forall (d : Device) (p : list byte) (pos transfer : nat)
         (d' : Device) (p' : list byte) (r : nat * option error),
    doRead_loop fuel d p pos transfer = Ok (d', p', r) ->
    length p' = length p.
Proof.
  induction fuel as [|fuel IH]; intros d p pos transfer d' p' r Hrun.
  - cbn [doRead_loop] in Hrun.
    destruct (pos <? length p); [discriminate|]. now inversion Hrun.
  - destruct (Nat.le_gt_cases (length p) pos) as [Hdone|Hpos].
    { rewrite doRead_loop_done in Hrun by lia. now inversion Hrun. }
    destruct (Nat.eq_dec pos 0) as [->|Hne].
    + rewrite doRead_loop_first in Hrun by assumption.
      pose proof (length_readRemoveHeader d p) as Hlen.
      destruct (readRemoveHeader d p) as [[d1 p1] [[[resp transfer1] a] err]].
      cbn [fst snd] in Hlen.
      destruct err as [e|]; [inversion Hrun; subst; exact Hlen|].
      destruct (resp =? 0); [inversion Hrun; subst; exact Hlen|].
      destruct (transfer1 <=? resp); [inversion Hrun; subst; exact Hlen|].
      rewrite (IH _ _ _ _ _ _ _ Hrun). exact Hlen.
    + rewrite doRead_loop_next in Hrun by lia.
      pose proof (length_readKeepHeader d (skipn pos p)) as Hlen.
      destruct (readKeepHeader d (skipn pos p)) as [[d1 sub] [resp err]].
      cbn [fst snd] in Hlen. cbn zeta in Hrun.
      assert (Hp1 : length (firstn pos p ++ sub) = length p).
      { rewrite length_app, length_firstn, Hlen, length_skipn. lia. }
      destruct (negb _); [discriminate|].
      destruct err as [e|]; [inversion Hrun; subst; exact Hp1|].
      destruct (resp =? 0); [inversion Hrun; subst; exact Hp1|].
      destruct (transfer <=? pos + resp); [inversion Hrun; subst; exact Hp1|].
      rewrite (IH _ _ _ _ _ _ _ Hrun). exact Hp1.
Qed.

Lemma doRead_length (d : Device) (p : list byte) (useTermChar : bool)
  (d' : Device) (p' : list byte) (r : nat * option error) :
  doRead d p useTermChar = Ok (d', p', r) -> length p' = length p.
Proof.
  unfold doRead.
  destruct (usbWrite _ _) as [u' [n err]].
  destruct err as [e|]; [intros H; now inversion H|].
  apply doRead_loop_length.
Qed.

Lemma readKeepHeader_ok (d : Device) (sub r : list byte)
  (rest : list (list byte * option error)) :
  rdScript (usbDevice d) = (r, None) :: rest ->
  length r <= length sub ->
  let u := usbDevice d in
  readKeepHeader d sub
  = (set_usb d (mkUSB (outLog u) (wrScript u) rest (inLog u ++ [length sub])),
     r ++ skipn (length r) sub, (length r, None)).
Proof.
  intros Hrd Hfit u. unfold readKeepHeader.
  rewrite (usbRead_eq _ _ _ _ _ Hrd), copy_fits by assumption.
  reflexivity.
Qed.

(** The passes after the first one, on reads that [contOK] admits. *)
Lemma doRead_loop_continue (ds : list (list byte)) :
  forall (fuel : nat) (d : Device) (p : list byte) (pos T : nat)
         (rest : list (list byte * option error)),
    rdScript (usbDevice d) = map (fun x => (x, None)) ds ++ rest ->
    pos <= length p ->
    pos < T ->
    length p - pos <= fuel ->
    contOK (length p) T pos (map (@length Z) ds) = true ->
    exists d',
      doRead_loop fuel d p pos T
      = Ok (d',
            firstn pos p ++ concat ds ++ skipn (pos + length (concat ds)) p,
            (Nat.min T (length p), None))
      /\ rdScript (usbDevice d') = rest
      /\ outLog (usbDevice d') = outLog (usbDevice d)
      /\ bTag d' = bTag d
      /\ length (inLog (usbDevice d'))
         = length (inLog (usbDevice d)) + length ds.
Proof.
  induction ds as [|r ds IH]; intros fuel d p pos T rest Hrd Hpos HT Hfuel Hok.
  - cbn [contOK map] in Hok. apply orb_true_iff in Hok.
    destruct Hok as [Hok|Hok]; apply Nat.leb_le in Hok; [lia|].
    rewrite doRead_loop_done by lia.
    exists d. cbn [concat length app]. rewrite Nat.add_0_r, firstn_skipn.
    replace (Nat.min pos T) with (Nat.min T (length p)) by lia.
    split; [reflexivity|]. split; [exact Hrd|].
    split; [reflexivity|]. split; [reflexivity|].
    cbn [length]. lia.
  - cbn [contOK map] in Hok.
    apply andb_true_iff in Hok as [Hok Hrec].
    apply andb_true_iff in Hok as [Hok Hdump].
    apply andb_true_iff in Hok as [Hok Hfit]. apply Nat.leb_le in Hfit.
    apply andb_true_iff in Hok as [Hok Hr]. apply Nat.ltb_lt in Hr.
    apply andb_true_iff in Hok as [Hok HposL]. apply Nat.ltb_lt in HposL.
    apply andb_true_iff in Hok as [Hpos0 _]. apply Nat.ltb_lt in Hpos0.
    destruct fuel as [|fuel]; [lia|].
    rewrite doRead_loop_next by lia.
    cbn [map app] in Hrd.
    rewrite (readKeepHeader_ok _ _ _ _ Hrd) by (rewrite length_skipn; lia).
    cbn zeta. rewrite Hdump. cbn [negb].
    replace (length r =? 0) with false by (symmetry; apply Nat.eqb_neq; lia).
    rewrite skipn_skipn.
    assert (Hp1 : length (firstn pos p ++ r ++ skipn (length r + pos) p)
                  = length p).
    { rewrite !length_app, length_firstn, length_skipn. lia. }
    destruct (T <=? pos + length r) eqn:ET.
    + apply Nat.leb_le in ET.
      destruct ds as [|r' ds].
      * eexists. split.
        { cbn [concat]. rewrite app_nil_r.
          replace (length r + pos) with (pos + length r) by lia.
          replace (Nat.min (pos + length r) T) with (Nat.min T (length p))
            by lia.
          reflexivity. }
        cbn [usbDevice set_usb rdScript outLog inLog bTag map app].
        split; [reflexivity|]. split; [reflexivity|]. split; [reflexivity|].
        rewrite length_app. cbn [length]. lia.
      * exfalso. cbn [contOK map] in Hrec.
        do 5 (apply andb_true_iff in Hrec as [Hrec _]).
        apply andb_true_iff in Hrec as [_ Hrec]. apply Nat.ltb_lt in Hrec.
        lia.
    + apply Nat.leb_gt in ET.
      destruct (IH fuel
                  (set_usb d
                     (mkUSB (outLog (usbDevice d)) (wrScript (usbDevice d))
                        (map (fun x => (x, None)) ds ++ rest)
                        (inLog (usbDevice d) ++ [length (skipn pos p)])))
                  (firstn pos p ++ r ++ skipn (length r + pos) p)
                  (pos + length r) T rest)
        as (d' & Hrun & Hrest & Hout & Htag & Hin).
      * reflexivity.
      * rewrite Hp1. lia.
      * exact ET.
      * rewrite Hp1. lia.
      * rewrite Hp1. exact Hrec.
      * exists d'. rewrite Hrun, Hp1.
        split.
        { f_equal. f_equal.
          rewrite (app_assoc (firstn pos p) r).
          rewrite firstn_exact
            by (rewrite length_app, length_firstn; lia).
          rewrite skipn_exact_plus
            by (rewrite length_app, length_firstn; lia).
          rewrite skipn_skipn.
          cbn [concat]. rewrite length_app, <- !app_assoc.
          replace (length (concat ds) + (length r + pos))
            with (pos + (length r + length (concat ds))) by lia.
          reflexivity. }
        cbn [usbDevice set_usb rdScript outLog inLog bTag] in *.
        split; [assumption|]. split; [assumption|]. split; [assumption|].
        rewrite Hin, length_app. cbn [length]. lia.
Qed.

(** Where the loop does reassemble.  Take a buffer that is not empty, an
    accepted request header, and a response whose first transfer is a 12-byte
    header declaring [T] followed by at most [len(p)] payload bytes, delivered
    without error over raw reads that [contOK] admits (the first transfer
    carries payload when more reads follow, no read is empty, each fits what
    is left of the buffer, the bounds of the trace slice stay in range, and
    the reads go on until [T] or the end of the buffer is reached).  Then
    [doRead] returns [min(T, len(p))] bytes and no error, the buffer keeps
    its length, and it holds the delivered bytes in order, followed by its
    old contents. *)
Lemma doRead_reassembles (d : Device) (p : list byte) (useTermChar : bool)
  (hdr d1 : list byte) (ds : list (list byte))
  (rest : list (list byte * option error)) :
  0 < length p ->
  wrOutcome (usbDevice d) = None ->
  length hdr = 12 ->
  rdScript (usbDevice d)
  = (hdr ++ d1, None) :: map (fun x => (x, None)) ds ++ rest ->
  length d1 <= length p ->
  contOK (length p) (Z.to_nat (hdrTransferSize hdr)) (length d1)
    (map (@length Z) ds) = true ->
  exists d' p',
    doRead d p useTermChar
    = Ok (d', p',
          (Nat.min (Z.to_nat (hdrTransferSize hdr)) (length p), None))
    /\ length p' = length p
    /\ p' = d1 ++ concat ds ++ skipn (length d1 + length (concat ds)) p
    /\ rdScript (usbDevice d') = rest.
Proof.
  intros Hp Hw Hhdr Hrd Hd1 Hok.
  set (T := Z.to_nat (hdrTransferSize hdr)) in *.
  assert (Hrun : exists d',
    doRead d p useTermChar
    = Ok (d', d1 ++ concat ds ++ skipn (length d1 + length (concat ds)) p,
          (Nat.min T (length p), None))
    /\ rdScript (usbDevice d') = rest).
  { unfold doRead.
    cbn [usbDevice set_bTag]. rewrite (usbWrite_accepted _ _ Hw).
    remember (length p) as L eqn:EL.
    destruct L as [|fuel]; [lia|].
    rewrite doRead_loop_first by lia.
    rewrite (readRemoveHeader_ok _ p hdr d1
               (map (fun x => (x, None)) ds ++ rest)) by (assumption || lia).
    fold T. cbn zeta.
    destruct (length d1 =? 0) eqn:E0.
    - apply Nat.eqb_eq in E0.
      destruct d1; [|discriminate]. clear E0.
      destruct ds as [|r ds]; [|discriminate Hok].
      cbn [contOK map length] in Hok. apply orb_true_iff in Hok.
      destruct Hok as [Hok|Hok]; apply Nat.leb_le in Hok; [|lia].
      eexists. split.
      { replace (Nat.min 0 T) with (Nat.min T (S fuel)) by lia.
        reflexivity. }
      reflexivity.
    - apply Nat.eqb_neq in E0.
      destruct (T <=? length d1) eqn:ET.
      + apply Nat.leb_le in ET.
        destruct ds as [|r ds].
        * eexists. split.
          { cbn [concat length app]. rewrite Nat.add_0_r.
            replace (Nat.min (length d1) T) with (Nat.min T (S fuel)) by lia.
            reflexivity. }
          reflexivity.
        * exfalso. cbn [contOK map] in Hok.
          do 5 (apply andb_true_iff in Hok as [Hok _]).
          apply andb_true_iff in Hok as [_ Hok]. apply Nat.ltb_lt in Hok.
          lia.
      + apply Nat.leb_gt in ET.
        assert (Hp1 : length (d1 ++ skipn (length d1) p) = length p).
        { rewrite length_app, length_skipn. lia. }
        match goal with
        | |- context [doRead_loop fuel ?dd ?pp ?pos ?TT] =>
            destruct (doRead_loop_continue ds fuel dd pp pos TT rest)
              as (d' & Hrun & Hrest & _)
        end.
        * reflexivity.
        * rewrite Hp1. lia.
        * exact ET.
        * rewrite Hp1. lia.
        * rewrite Hp1, <- EL. exact Hok.
        * exists d'. split; [|exact Hrest].
          rewrite Hrun, Hp1, <- EL.
          rewrite firstn_exact by reflexivity.
          rewrite skipn_exact_plus by reflexivity.
          rewrite skipn_skipn.
          replace (length (concat ds) + length d1)
            with (length d1 + length (concat ds)) by lia.
          reflexivity. }
  destruct Hrun as (d' & Hrun & Hrest).
  exists d', (d1 ++ concat ds ++ skipn (length d1 + length (concat ds)) p).
  split; [exact Hrun|].
  split; [exact (doRead_length _ _ _ _ _ _ Hrun)|].
  split; [reflexivity | exact Hrest].
Qed.

(** A response of 20 bytes delivered over two raw reads of 10 bytes into a
    buffer of 20 bytes. *)
Lemma doRead_reassembles_witness :
  exists d' p',
    doRead
      (defaultDevice
         (respondingUSB
            [(respHeader 2 253 20 ++ repeat 65%Z 10, None);
             (repeat 66%Z 10, None)]))
      (repeat 0%Z 20) true
    = Ok (d', p', (20, None))
    /\ length p' = 20
    /\ p' = repeat 65%Z 10 ++ repeat 66%Z 10
    /\ rdScript (usbDevice d') = [].
Proof.
  apply (doRead_reassembles
           (defaultDevice
              (respondingUSB
                 [(respHeader 2 253 20 ++ repeat 65%Z 10, None);
                  (repeat 66%Z 10, None)]))
           (repeat 0%Z 20) true (respHeader 2 253 20) (repeat 65%Z 10)
           [repeat 66%Z 10] []).
  - vm_compute. lia.
  - reflexivity.
  - reflexivity.
  - reflexivity.
  - vm_compute. lia.
  - vm_compute. reflexivity.
Defined.

(** A buffer of 4 bytes and a first transfer that declares 8 bytes and
    carries all 8: [doRead] fills the 4 bytes of the buffer and returns 8,
    more than the buffer holds. *)
Lemma doRead_returns_more_than_buffer :
  hdrTransferSize (respHeader 2 253 8) = 8%Z
  /\ Nat.min 8 (length (repeat 0%Z 4)) = 4
  /\ seenByCaller
       (doRead
          (defaultDevice
             (respondingUSB
                [(respHeader 2 253 8
                  ++ [1%Z; 2%Z; 3%Z; 4%Z; 5%Z; 6%Z; 7%Z; 8%Z], None)]))
          (repeat 0%Z 4) true)
     = Ok ([1%Z; 2%Z; 3%Z; 4%Z], (8, None)).
Proof.
  repeat split; vm_compute; reflexivity.
Qed.

(** C2 (the code panics): a buffer of 12 bytes and an error-free response
    that declares 12 bytes and delivers them over three raw reads of 4 bytes,
    the first after the header.  The second pass takes [p[4:4]] for the trace
    and goes on; the third pass takes [p[8:4]] and panics, where
    [min(12, 12) = 12] bytes are to be returned. *)
Lemma doRead_three_reads_panic :
  hdrTransferSize (respHeader 2 253 12) = 12%Z
  /\ doRead
       (defaultDevice
          (respondingUSB
             [(respHeader 2 253 12 ++ [1%Z; 2%Z; 3%Z; 4%Z], None);
              ([5%Z; 6%Z; 7%Z; 8%Z], None);
              ([9%Z; 10%Z; 11%Z; 12%Z], None)]))
       (repeat 0%Z 12) true
     = Panic (SliceBounds 8 4).
Proof.
  split; vm_compute; reflexivity.
Qed.

(** ** Trimming *)

Section StripFacts.

Variable sp1 : byte -> bool.
Variable sp2 : byte -> byte -> bool.
Variable sp3 : byte -> byte -> byte -> bool.

Let strip' := strip sp1 sp2 sp3.
Let starts' := starts sp1 sp2 sp3.
Let run' := run sp1 sp2 sp3.

(** Either nothing is stripped, or one character goes and the rest is
    stripped in turn. *)
Lemma strip_step (s : list byte) :
  (starts' s = false /\ strip' s = s)
  \/ (exists sp r,
         s = sp ++ r /\ length r < length s /\ run' sp
         /\ strip' s = strip' r /\ starts' s = true).
Proof.
  subst strip' starts' run'.
  destruct s as [|c1 r1]; [left; split; reflexivity|].
  cbn [strip starts].
  destruct (sp1 c1) eqn:E1.
  { right. exists [c1], r1. repeat split.
    - cbn [length]. lia.
    - apply run_1; [exact E1 | apply run_nil]. }
  destruct r1 as [|c2 r2]; [left; split; reflexivity|].
  destruct (sp2 c1 c2) eqn:E2.
  { right. exists [c1; c2], r2. repeat split.
    - cbn [length]. lia.
    - apply run_2; [exact E2 | apply run_nil]. }
  destruct r2 as [|c3 r3]; [left; split; reflexivity|].
  destruct (sp3 c1 c2 c3) eqn:E3.
  { right. exists [c1; c2; c3], r3. repeat split.
    - cbn [length]. lia.
    - apply run_3; [exact E3 | apply run_nil]. }
  left. split; reflexivity.
Qed.

Lemma run_app (a b : list byte) : run' a -> run' b -> run' (a ++ b).
Proof.
  subst run'. intros Ha Hb.
  induction Ha; cbn [app];
    [assumption | apply run_1 | apply run_2 | apply run_3]; assumption.
Qed.

Lemma strip_facts (n : nat) :
  forall s, length s <= n ->
    length (strip' s) <= length s
    /\ starts' (strip' s) = false
    /\ exists lead, s = lead ++ strip' s /\ run' lead.
Proof.
  induction n as [|n IH]; intros s Hn.
  - destruct s; [|cbn [length] in Hn; lia].
    subst strip' starts' run'. cbn. repeat split; [lia|].
    exists []. split; [reflexivity | apply run_nil].
  - destruct (strip_step s) as [[Hst Heq]|(sp & r & Hs & Hlen & Hrun & Heq & _)].
    + rewrite Heq. repeat split; [lia | exact Hst|].
      exists []. split; [reflexivity | apply run_nil].
    + destruct (IH r ltac:(lia)) as (Hl & Hst & lead & Hlead & Hrl).
      rewrite Heq. repeat split; [lia | exact Hst|].
      exists (sp ++ lead). split.
      * rewrite <- app_assoc, <- Hlead. exact Hs.
      * apply run_app; assumption.
Qed.

Lemma strip_fixed (s : list byte) : starts' s = false -> strip' s = s.
Proof.
  intros H.
  destruct (strip_step s) as [[_ Heq]|(sp & r & _ & _ & _ & _ & Ht)];
    [exact Heq | congruence].
Qed.

Lemma starts_prefix (u v : list byte) :
  starts' (u ++ v) = false -> starts' u = false.
Proof.
  subst starts'.
  destruct u as [|c1 [|c2 [|c3 u]]]; cbn [app starts]; intros H.
  - reflexivity.
  - apply orb_false_iff in H as [H1 _]. rewrite H1. reflexivity.
  - apply orb_false_iff in H as [H1 H]. rewrite H1.
    apply orb_false_iff in H as [H2 _]. rewrite H2. reflexivity.
  - exact H.
Qed.

End StripFacts.

Lemma run_rev (s : list byte) :
  run space1 (fun c1 c2 => space2 c2 c1) (fun c1 c2 c3 => space3 c3 c2 c1) s ->
  allSpace (rev s).
Proof.
  unfold allSpace. intros H. induction H; cbn [rev].
  - apply run_nil.
  - apply run_app; [assumption|]. apply run_1; [assumption | apply run_nil].
  - rewrite <- app_assoc. cbn [app].
    apply run_app; [assumption|]. apply run_2; [assumption | apply run_nil].
  - rewrite <- !app_assoc. cbn [app].
    apply run_app; [assumption|]. apply run_3; [assumption | apply run_nil].
Qed.

Lemma trimLeft_split (s : list byte) :
  startsWithSpace (trimLeft s) = false
  /\ exists lead, s = lead ++ trimLeft s /\ allSpace lead.
Proof.
  destruct (strip_facts space1 space2 space3 (length s) s (le_n _))
    as (_ & H1 & H2).
  split; assumption.
Qed.

Lemma trimRight_split (s : list byte) :
  trimRight (trimRight s) = trimRight s
  /\ exists trail, s = trimRight s ++ trail /\ allSpace trail.
Proof.
  unfold trimRight.
  destruct (strip_facts space1 (fun c1 c2 => space2 c2 c1)
              (fun c1 c2 c3 => space3 c3 c2 c1) (length (rev s)) (rev s)
              (le_n _))
    as (_ & H1 & lead & H2 & H3).
  split.
  - rewrite rev_involutive. unfold trimLeftRev at 1.
    now rewrite strip_fixed.
  - exists (rev lead). split; [|apply run_rev; exact H3].
    rewrite <- rev_app_distr. unfold trimLeftRev. rewrite <- H2.
    symmetry. apply rev_involutive.
Qed.

(** [TrimSpace] removes white space at both ends, all of it, and nothing
    else. *)
Lemma TrimSpace_split (s : list byte) :
  (exists lead trail,
      s = lead ++ TrimSpace s ++ trail /\ allSpace lead /\ allSpace trail)
  /\ trimLeft (TrimSpace s) = TrimSpace s
  /\ trimRight (TrimSpace s) = TrimSpace s.
Proof.
  unfold TrimSpace.
  destruct (trimLeft_split s) as (Hst & lead & Hlead & Hl).
  destruct (trimRight_split (trimLeft s)) as (Hidem & trail & Htrail & Ht).
  split; [|split].
  - exists lead, trail. split; [|split; assumption].
    rewrite <- Htrail. exact Hlead.
  - apply (strip_fixed space1 space2 space3).
    apply (starts_prefix space1 space2 space3 _ trail).
    rewrite <- Htrail. exact Hst.
  - exact Hidem.
Qed.

(** ** Claims about [Command] *)

(** C9, as amended: [Command] makes one call of [Write], with the text
    stripped of its white space at both ends, the leading one included,
    followed by a single newline; what is stripped is white space, all of it,
    and the text between is unchanged.  [Command] returns the error of that
    call of [Write], be it none: on a driver that accepts every write the
    transfers carry the stripped text and the newline and [Command] succeeds,
    and on a driver that refuses one of the transfers [Command] fails with
    the driver's error. *)
Theorem Command_sends_trimmed_text (d : Device) (cmd : list byte) :
  (exists lead trail,
      cmd = lead ++ TrimSpace cmd ++ trail /\ allSpace lead /\ allSpace trail)
  /\ trimLeft (TrimSpace cmd) = TrimSpace cmd
  /\ trimRight (TrimSpace cmd) = TrimSpace cmd
  /\ (exists d' n err,
         Write d (TrimSpace cmd ++ [10%Z]) = Some (d', (n, err))
         /\ Command d cmd = Some (d', err))
  /\ (acceptsWrites (usbDevice d) ->
      exists d',
        Command d cmd = Some (d', None)
        /\ outLog (usbDevice d')
           = outLog (usbDevice d)
             ++ framesOf (bTag d) (chunks (TrimSpace cmd ++ [10%Z]))
        /\ concat (map sentPayload
                     (framesOf (bTag d) (chunks (TrimSpace cmd ++ [10%Z]))))
           = TrimSpace cmd ++ [10%Z])
  /\ (forall i e ws,
         wrScript (usbDevice d) = repeat None i ++ Some e :: ws ->
         500 * i < length (TrimSpace cmd ++ [10%Z]) ->
         exists d', Command d cmd = Some (d', Some e)).
Proof.
  destruct (TrimSpace_split cmd) as (Hsplit & Hleft & Hright).
  assert (Hlen : 0 < length (TrimSpace cmd ++ [10%Z])).
  { rewrite length_app. cbn [length]. lia. }
  split; [exact Hsplit|]. split; [exact Hleft|]. split; [exact Hright|].
  split; [|split].
  - destruct (Write_total d (TrimSpace cmd ++ [10%Z])) as ([d' [n err]] & Hw).
    exists d', n, err. split; [exact Hw|].
    unfold Command, WriteString. now rewrite Hw.
  - intros Hacc.
    destruct (Write_accepted d (TrimSpace cmd ++ [10%Z]) Hacc)
      as (d' & Hw & Hlog).
    destruct (framesOf_sizes (bTag d) (chunks (TrimSpace cmd ++ [10%Z]))
                (chunks_bounded _ Hlen)) as (_ & Hpay & _).
    exists d'. split; [|split].
    + unfold Command, WriteString. now rewrite Hw.
    + exact Hlog.
    + rewrite Hpay. apply chunks_concat.
  - intros i e ws Hws Hi.
    destruct (Write_refused d (TrimSpace cmd ++ [10%Z]) i e ws Hws Hi)
      as (d' & Hw & _).
    exists d'. unfold Command, WriteString. now rewrite Hw.
Qed.

(** The text " *RST " with a newline at its end, on an idle device. *)
Lemma Command_sends_trimmed_text_witness :
  exists d',
    Command (defaultDevice idleUSB) [32%Z; 42%Z; 82%Z; 83%Z; 84%Z; 32%Z; 10%Z]
    = Some (d', None)
    /\ concat (map sentPayload (outLog (usbDevice d')))
       = [42%Z; 82%Z; 83%Z; 84%Z; 10%Z].
Proof.
  destruct (Command_sends_trimmed_text (defaultDevice idleUSB)
              [32%Z; 42%Z; 82%Z; 83%Z; 84%Z; 32%Z; 10%Z])
    as (_ & _ & _ & _ & Hacc & _).
  destruct (Hacc (Forall_nil _)) as (d' & Hc & Hlog & Hcat).
  exists d'. split; [exact Hc|].
  rewrite Hlog. exact Hcat.
Defined.

(** C9, counterexample: for the text "  *RST" (two leading blanks) the
    transfer carries "*RST" and a newline; with only the trailing white
    space removed it would carry the two blanks as well. *)
Lemma Command_strips_leading_space :
  trimTrailing_spec [32%Z; 32%Z; 42%Z; 82%Z; 83%Z; 84%Z] ++ [10%Z]
  = [32%Z; 32%Z; 42%Z; 82%Z; 83%Z; 84%Z; 10%Z]
  /\ exists d',
       Command (defaultDevice idleUSB) [32%Z; 32%Z; 42%Z; 82%Z; 83%Z; 84%Z]
       = Some (d', None)
       /\ map sentPayload (outLog (usbDevice d'))
          = [[42%Z; 82%Z; 83%Z; 84%Z; 10%Z]].
Proof.
  split; [vm_compute; reflexivity|].
  eexists. split; vm_compute; reflexivity.
Qed.

(** * Further properties *)

(** ** [Write] on any driver *)

Lemma chunksN_bounded (k : nat) (p : list byte) :
  Forall (fun c => length c <= 500) (chunksN k p).
Proof.
  revert p. induction k as [|k IH]; intros p; cbn [chunksN]; constructor.
  - rewrite length_firstn. lia.
  - apply IH.
Qed.

Lemma framesOf_payloads (t : byte) (cs : list (list byte)) :
  Forall (fun c => length c <= 500) cs ->
  map sentPayload (framesOf t cs) = cs.
Proof.
  intros H. revert t. induction H as [|c cs Hc _ IH]; intros t.
  - reflexivity.
  - cbn [framesOf map]. now rewrite IH, frameOf_payload.
Qed.

(** What the loop of [Write] does, whatever the driver answers: it hands the
    driver the transfers of the first [k] chunks, stops at the first refusal,
    and has advanced the tag [k] times. *)
Lemma Write_loop_any (fuel : nat) :
  forall (d : Device) (p : list byte) (pos : nat),
    length p - pos <= fuel ->
    let u := usbDevice d in
    exists k n err,
      Write_loop fuel d p pos
      = Some (mkDevice
                (mkUSB (outLog u ++ framesOf (bTag d) (chunksN k (skipn pos p)))
                   (skipn k (wrScript u)) (rdScript u) (inLog u))
                (tagAfter k (bTag d)) (termChar d) (termCharEnabled d),
              (n, err))
      /\ k <= chunkCount (length p - pos)
      /\ match err with
         | None => n = length p /\ k = chunkCount (length p - pos)
         | Some _ => 1 <= k /\ n = pos + 500 * (k - 1) /\ n < length p
         end.
Proof.
  induction fuel as [|fuel IH]; intros d p pos Hfuel u.
  - exists 0, (length p), None.
    rewrite Write_loop_done by lia.
    replace (length p - pos) with 0 by lia.
    subst u. destruct d as [[ol ws rs il] t tc tce].
    cbn [chunksN framesOf skipn tagAfter usbDevice bTag termChar
           termCharEnabled outLog wrScript rdScript inLog].
    rewrite app_nil_r. repeat split. unfold chunkCount. cbn. lia.
  - destruct (Nat.le_gt_cases (length p) pos) as [Hdone|Hpos].
    + exists 0, (length p), None.
      rewrite Write_loop_done by lia.
      replace (length p - pos) with 0 by lia.
      subst u. destruct d as [[ol ws rs il] t tc tce].
      cbn [chunksN framesOf skipn tagAfter usbDevice bTag termChar
             termCharEnabled outLog wrScript rdScript inLog].
      rewrite app_nil_r. repeat split. unfold chunkCount. cbn. lia.
    + rewrite Write_loop_S, Write_chunk_eq by assumption.
      pose proof (chunkCount_step (length p - pos) ltac:(lia)) as Hcc.
      subst u.
      destruct (wrOutcome (usbDevice d)) as [e|] eqn:Hout.
      * exists 1, pos, (Some e).
        cbn [chunksN framesOf tagAfter].
        rewrite slice_first_chunk, (skipn_S_tl _ 0 (wrScript (usbDevice d))).
        cbn [skipn]. split; [reflexivity|]. split; [lia|]. lia.
      * destruct (IH
                    (mkDevice
                       (mkUSB
                          (outLog (usbDevice d)
                           ++ [frameOf (nextbTag (bTag d))
                                 (slice p pos
                                    (pos + Nat.min (length p - pos) 500))])
                          (tl (wrScript (usbDevice d)))
                          (rdScript (usbDevice d)) (inLog (usbDevice d)))
                       (nextbTag (bTag d)) (termChar d) (termCharEnabled d))
                    p (pos + Nat.min (length p - pos) 500) ltac:(lia))
          as (k & n & err & Hrun & Hk & Herr).
        exists (S k), n, err. rewrite Hrun.
        cbn [usbDevice bTag termChar termCharEnabled outLog wrScript rdScript
               inLog chunksN framesOf tagAfter].
        rewrite slice_first_chunk, skipn_next_chunk.
        rewrite <- app_assoc. cbn [app].
        rewrite (skipn_S_tl _ k (wrScript (usbDevice d))).
        split; [reflexivity|].
        replace (length p - (pos + Nat.min (length p - pos) 500))
          with (length p - pos - Nat.min (length p - pos) 500) in * by lia.
        split; [lia|].
        destruct err as [e|]; lia.
Qed.

(** [Write], whatever the driver answers. *)
Lemma Write_any (d : Device) (p : list byte) :
  exists d' k n err,
    Write d p = Some (d', (n, err))
    /\ outLog (usbDevice d')
       = outLog (usbDevice d) ++ framesOf (bTag d) (chunksN k p)
    /\ bTag d' = tagAfter k (bTag d)
    /\ wrScript (usbDevice d') = skipn k (wrScript (usbDevice d))
    /\ rdScript (usbDevice d') = rdScript (usbDevice d)
    /\ inLog (usbDevice d') = inLog (usbDevice d)
    /\ k <= chunkCount (length p)
    /\ match err with
       | None => n = length p /\ k = chunkCount (length p)
       | Some _ => 1 <= k /\ n = 500 * (k - 1) /\ n < length p
       end.
Proof.
  destruct (Write_loop_any (length p) d p 0 ltac:(lia))
    as (k & n & err & Hrun & Hk & Herr).
  rewrite Nat.sub_0_r in Hk, Herr. cbn [skipn Nat.add] in Hrun, Herr.
  eexists. exists k, n, err. split; [exact Hrun|].
  cbn [usbDevice outLog wrScript rdScript inLog bTag].
  repeat (split; [reflexivity || assumption|]). exact Herr.
Qed.

Lemma frameOf_length (t : byte) (c : list byte) :
  length c <= 500 ->
  length (frameOf t c) mod 4 = 0 /\ 12 <= length (frameOf t c) <= 512.
Proof.
  intros Hc.
  destruct (frameOf_shape t c) as (z & _ & Hz & Hmod & Hlen).
  unfold usbtmcHeaderLen in Hlen.
  pose proof (Nat.div_mod_eq (length (frameOf t c)) 4) as Hd.
  split; [exact Hmod | lia].
Qed.

Lemma framesOf_lengths (t : byte) (cs : list (list byte)) :
  Forall (fun c => length c <= 500) cs ->
  Forall (fun f => length f mod 4 = 0 /\ 12 <= length f <= 512) (framesOf t cs).
Proof.
  intros H. revert t. induction H as [|c cs Hc _ IH]; intros t;
    cbn [framesOf]; constructor.
  - apply frameOf_length. exact Hc.
  - apply IH.
Qed.



(** X2: [Write] advances the tag of the device once for every buffer it
    hands to the driver, the refused one included, and in no other case; it
    hands the driver at most [ceil(len(p)/500)] buffers and never reads. *)
Theorem Write_tag_per_transfer (d : Device) (p : list byte) :
  exists d' r k,
    Write d p = Some (d', r)
    /\ length (outLog (usbDevice d')) = length (outLog (usbDevice d)) + k
    /\ bTag d' = tagAfter k (bTag d)
    /\ k <= chunkCount (length p)
    /\ inLog (usbDevice d') = inLog (usbDevice d)
    /\ rdScript (usbDevice d') = rdScript (usbDevice d).
Proof.
  destruct (Write_any d p)
    as (d' & k & n & err & Hrun & Hlog & Htag & _ & Hrd & Hin & Hk & _).
  exists d', (n, err), k. split; [exact Hrun|].
  split; [rewrite Hlog, length_app, length_framesOf, length_chunksN; lia|].
  repeat (split; [assumption|]). assumption.
Qed.

(** X3: every buffer [Write] hands to the driver has a length that is a
    multiple of 4, at least 12 (the header) and at most 512. *)
Theorem Write_transfers_aligned (d : Device) (p : list byte) :
  exists d' r fs,
    Write d p = Some (d', r)
    /\ outLog (usbDevice d') = outLog (usbDevice d) ++ fs
    /\ Forall (fun f => length f mod 4 = 0 /\ 12 <= length f <= 512) fs.
Proof.
  destruct (Write_any d p) as (d' & k & n & err & Hrun & Hlog & _).
  exists d', (n, err), (framesOf (bTag d) (chunksN k p)).
  split; [exact Hrun|]. split; [exact Hlog|].
  apply framesOf_lengths, chunksN_bounded.
Qed.

(** X4: the payloads of the transfers [Write] hands to the driver, as their
    headers declare them, put together in order are a prefix of [p]: 500
    bytes per transfer as long as [p] lasts.  When [Write] returns no error
    they are [p]. *)
Theorem Write_sends_prefix (d : Device) (p : list byte) :
  exists d' n err fs,
    Write d p = Some (d', (n, err))
    /\ outLog (usbDevice d') = outLog (usbDevice d) ++ fs
    /\ concat (map sentPayload fs) = firstn (500 * length fs) p
    /\ match err with
       | None => concat (map sentPayload fs) = p
       | Some _ => True
       end.
Proof.
  destruct (Write_any d p)
    as (d' & k & n & err & Hrun & Hlog & _ & _ & _ & _ & _ & Herr).
  exists d', n, err, (framesOf (bTag d) (chunksN k p)).
  split; [exact Hrun|]. split; [exact Hlog|].
  rewrite framesOf_payloads by apply chunksN_bounded.
  rewrite length_framesOf, length_chunksN, concat_chunksN, Nat.mul_comm.
  split; [reflexivity|].
  destruct err as [e|]; [exact I|].
  destruct Herr as [_ ->]. apply firstn_all2.
  destruct (Nat.eq_dec (length p) 0) as [E|E]; [lia|].
  pose proof (chunkCount_inv (length p) ltac:(lia)). lia.
Qed.

(** ** The driver on the read path *)

Lemma usbWrite_refused (u : USBDevice) (data : list byte) (e : error) :
  wrOutcome u = Some e ->
  usbWrite u data
  = (mkUSB (outLog u ++ [data]) (tl (wrScript u)) (rdScript u) (inLog u),
     (0, Some e)).
Proof.
  unfold wrOutcome, usbWrite.
  destruct (wrScript u) as [|[e'|] ws]; intros H;
    [discriminate | now inversion H | discriminate].
Qed.

Lemma usbRead_device (u : USBDevice) (buf : list byte) :
  fst (fst (usbRead u buf))
  = mkUSB (outLog u) (wrScript u) (tl (rdScript u)) (inLog u ++ [length buf])
  /\ fst (snd (usbRead u buf)) = readSize (rdScript u).
Proof.
  unfold usbRead, readSize.
  destruct (rdScript u) as [|[data err] rest]; split; reflexivity.
Qed.

Lemma tempSize_upper (lenp : nat) : tempSize lenp < lenp + 12 + 512.
Proof.
  unfold tempSize, usbtmcHeaderLen.
  pose proof (Nat.mod_upper_bound (lenp + 12) 512 ltac:(lia)) as Hm.
  destruct ((lenp + 12) mod 512 =? 0) eqn:E; cbn [negb].
  - lia.
  - apply Nat.eqb_neq in E. lia.
Qed.

Lemma readRemoveHeader_device (d : Device) (p : list byte) :
  let u := usbDevice d in
  fst (fst (readRemoveHeader d p))
  = set_usb d (mkUSB (outLog u) (wrScript u) (tl (rdScript u))
                 (inLog u ++ [tempSize (length p)])).
Proof.
  intros u. unfold readRemoveHeader.
  change (if negb ((length p + usbtmcHeaderLen) mod 512 =? 0)
          then length p + usbtmcHeaderLen
               + (512 - (length p + usbtmcHeaderLen) mod 512)
          else length p + usbtmcHeaderLen)
    with (tempSize (length p)).
  destruct (usbRead_device (usbDevice d) (repeat 0%Z (tempSize (length p))))
    as [Hdev _].
  destruct (usbRead (usbDevice d) (repeat 0%Z (tempSize (length p))))
    as [[u' temp] [n err]].
  cbn [fst snd] in Hdev. rewrite repeat_length in Hdev. subst u'.
  destruct err as [e|]; [reflexivity|].
  destruct (n <? usbtmcHeaderLen); reflexivity.
Qed.

Lemma readKeepHeader_device (d : Device) (sub : list byte) :
  let u := usbDevice d in
  fst (fst (readKeepHeader d sub))
  = set_usb d (mkUSB (outLog u) (wrScript u) (tl (rdScript u))
                 (inLog u ++ [length sub]))
  /\ fst (snd (readKeepHeader d sub)) = readSize (rdScript u).
Proof.
  intros u. unfold readKeepHeader.
  destruct (usbRead_device (usbDevice d) sub) as [Hdev Hn].
  destruct (usbRead (usbDevice d) sub) as [[u' p'] r].
  cbn [fst snd] in *. subst u'. split; [reflexivity | exact Hn].
Qed.

Lemma readRemoveHeader_error (d : Device) (p data : list byte) (e : error)
  (rest : list (list byte * option error)) :
  rdScript (usbDevice d) = (data, Some e) :: rest ->
  let u := usbDevice d in
  readRemoveHeader d p
  = (set_usb d (mkUSB (outLog u) (wrScript u) rest
                  (inLog u ++ [tempSize (length p)])),
     p, (0, 0, 0%Z, Some e)).
Proof.
  intros Hrd u. unfold readRemoveHeader.
  rewrite (usbRead_eq _ _ _ _ _ Hrd), repeat_length.
  reflexivity.
Qed.

Lemma copy_nil (A : Type) (dst : list A) : copy dst [] = dst.
Proof.
  unfold copy. now rewrite firstn_nil.
Qed.

(** The first transfer of a response that fits the temporary buffer. *)
Lemma readRemoveHeader_fits (d : Device) (p hdr d1 : list byte)
  (rest : list (list byte * option error)) :
  rdScript (usbDevice d) = (hdr ++ d1, None) :: rest ->
  length hdr = 12 ->
  12 + length d1 <= tempSize (length p) ->
  let u := usbDevice d in
  readRemoveHeader d p
  = (set_usb d (mkUSB (outLog u) (wrScript u) rest
                  (inLog u ++ [tempSize (length p)])),
     copy p d1,
     (length d1, Z.to_nat (hdrTransferSize hdr), hdrAttr hdr, None)).
Proof.
  intros Hrd Hhdr Hfit u. unfold readRemoveHeader.
  rewrite (usbRead_eq _ _ _ _ _ Hrd), repeat_length.
  change (if negb ((length p + usbtmcHeaderLen) mod 512 =? 0)
          then length p + usbtmcHeaderLen
               + (512 - (length p + usbtmcHeaderLen) mod 512)
          else length p + usbtmcHeaderLen)
    with (tempSize (length p)) in *.
  set (ts := tempSize (length p)) in *.
  rewrite length_copy, repeat_length.
  rewrite (copy_fits _ (repeat 0%Z ts) (hdr ++ d1))
    by (rewrite length_app, repeat_length; lia).
  rewrite length_app, Hhdr.
  replace (12 + length d1 <? usbtmcHeaderLen) with false
    by (symmetry; apply Nat.ltb_ge; unfold usbtmcHeaderLen; lia).
  unfold usbtmcHeaderLen.
  replace (Nat.min (ts - 12) (12 + length d1 - 12)) with (length d1) by lia.
  assert (Hslice :
    slice ((hdr ++ d1) ++ skipn (12 + length d1) (repeat 0%Z ts)) 12
      (12 + length d1) = d1).
  { unfold slice. rewrite <- app_assoc.
    rewrite skipn_app, skipn_all2, Hhdr, Nat.sub_diag by lia.
    cbn [app skipn].
    replace (12 + length d1 - 12) with (length d1) by lia.
    rewrite firstn_app, firstn_all, Nat.sub_diag. cbn [firstn].
    apply app_nil_r. }
  rewrite Hslice.
  assert (Hp : (if 0 <? length d1 then copy p d1 else p) = copy p d1).
  { destruct d1 as [|x d1]; [symmetry; apply copy_nil | reflexivity]. }
  rewrite Hp.
  replace (12 + length d1 - 12) with (length d1) by lia.
  split_header hdr Hhdr.
  reflexivity.
Qed.

(** ** [doRead] on any driver *)

Lemma doRead_accepted (d : Device) (p : list byte) (useTermChar : bool) :
  wrOutcome (usbDevice d) = None ->
  doRead d p useTermChar
  = doRead_loop (length p) (afterRequest d p useTermChar) p 0 0.
Proof.
  intros Hw. unfold doRead.
  cbn [usbDevice set_bTag]. now rewrite (usbWrite_accepted _ _ Hw).
Qed.

Lemma doRead_refused (d : Device) (p : list byte) (useTermChar : bool)
  (e : error) :
  wrOutcome (usbDevice d) = Some e ->
  doRead d p useTermChar = Ok (afterRequest d p useTermChar, p, (0, Some e)).
Proof.
  intros Hw. unfold doRead.
  cbn [usbDevice set_bTag]. now rewrite (usbWrite_refused _ _ _ Hw).
Qed.

(** What the loop of [doRead] leaves alone and how often it reads. *)
Lemma doRead_loop_effects (fuel : nat) :
  forall (d : Device) (p : list byte) (pos transfer : nat)
         (d' : Device) (p' : list byte) (r : nat * option error),
    doRead_loop fuel d p pos transfer = Ok (d', p', r) ->
    outLog (usbDevice d') = outLog (usbDevice d)
    /\ wrScript (usbDevice d') = wrScript (usbDevice d)
    /\ bTag d' = bTag d
    /\ termChar d' = termChar d
    /\ termCharEnabled d' = termCharEnabled d
    /\ length (inLog (usbDevice d'))
       <= length (inLog (usbDevice d)) + (length p - pos).
Proof.
  induction fuel as [|fuel IH]; intros d p pos transfer d' p' r Hrun.
  - cbn [doRead_loop] in Hrun.
    destruct (pos <? length p); [discriminate|].
    inversion Hrun; subst. repeat split. lia.
  - destruct (Nat.le_gt_cases (length p) pos) as [Hdone|Hpos].
    { rewrite doRead_loop_done in Hrun by lia.
      inversion Hrun; subst. repeat split. lia. }
    destruct (Nat.eq_dec pos 0) as [->|Hne].
    + rewrite doRead_loop_first in Hrun by assumption.
      pose proof (length_readRemoveHeader d p) as Hlen.
      pose proof (readRemoveHeader_device d p) as Hdev.
      destruct (readRemoveHeader d p) as [[d1 p1] [[[resp transfer1] a] err]].
      cbn [fst snd] in Hlen, Hdev. cbn zeta in Hdev.
      assert (H1 : outLog (usbDevice d1) = outLog (usbDevice d)
                   /\ wrScript (usbDevice d1) = wrScript (usbDevice d)
                   /\ bTag d1 = bTag d /\ termChar d1 = termChar d
                   /\ termCharEnabled d1 = termCharEnabled d
                   /\ length (inLog (usbDevice d1))
                      = length (inLog (usbDevice d)) + 1).
      { subst d1. cbn. rewrite length_app. cbn. repeat split. }
      destruct H1 as (Ho & Hw & Ht & Htc & Hte & Hi).
      destruct err as [e|];
        [inversion Hrun; subst; repeat split; try assumption; lia|].
      destruct (resp =? 0) eqn:E0;
        [inversion Hrun; subst; repeat split; try assumption; lia|].
      destruct (transfer1 <=? resp);
        [inversion Hrun; subst; repeat split; try assumption; lia|].
      apply Nat.eqb_neq in E0.
      destruct (IH _ _ _ _ _ _ _ Hrun) as (Ho' & Hw' & Ht' & Htc' & Hte' & Hi').
      rewrite Hlen in Hi'.
      repeat split; try congruence. lia.
    + rewrite doRead_loop_next in Hrun by lia.
      pose proof (length_readKeepHeader d (skipn pos p)) as Hlen.
      destruct (readKeepHeader_device d (skipn pos p)) as [Hdev _].
      destruct (readKeepHeader d (skipn pos p)) as [[d1 sub] [resp err]].
      cbn [fst snd] in Hlen, Hdev. cbn zeta in Hrun, Hdev.
      assert (Hp1 : length (firstn pos p ++ sub) = length p).
      { rewrite length_app, length_firstn, Hlen, length_skipn. lia. }
      assert (H1 : outLog (usbDevice d1) = outLog (usbDevice d)
                   /\ wrScript (usbDevice d1) = wrScript (usbDevice d)
                   /\ bTag d1 = bTag d /\ termChar d1 = termChar d
                   /\ termCharEnabled d1 = termCharEnabled d
                   /\ length (inLog (usbDevice d1))
                      = length (inLog (usbDevice d)) + 1).
      { subst d1. cbn. rewrite length_app. cbn. repeat split. }
      destruct H1 as (Ho & Hw & Ht & Htc & Hte & Hi).
      destruct (negb _); [discriminate|].
      destruct err as [e|];
        [inversion Hrun; subst; repeat split; try assumption; lia|].
      destruct (resp =? 0) eqn:E0;
        [inversion Hrun; subst; repeat split; try assumption; lia|].
      destruct (transfer <=? pos + resp);
        [inversion Hrun; subst; repeat split; try assumption; lia|].
      apply Nat.eqb_neq in E0.
      destruct (IH _ _ _ _ _ _ _ Hrun) as (Ho' & Hw' & Ht' & Htc' & Hte' & Hi').
      rewrite Hp1 in Hi'.
      repeat split; try congruence. lia.
Qed.

(** X5: when the driver refuses the request header, [doRead] returns zero
    bytes and the driver's error without reading anything: the read log and
    the pending reads are untouched and so is the caller's buffer, while the
    tag has been advanced and the header handed to the driver. *)
Theorem doRead_request_refused (d : Device) (p : list byte)
  (useTermChar : bool) (e : error) :
  wrOutcome (usbDevice d) = Some e ->
  exists d',
    doRead d p useTermChar = Ok (d', p, (0, Some e))
    /\ bTag d' = nextbTag (bTag d)
    /\ outLog (usbDevice d')
       = outLog (usbDevice d)
         ++ [encodeMsgInBulkOutHeader (nextbTag (bTag d))
               (uint32 (Z.of_nat (length p)))
               (useTermChar && termCharEnabled d) (termChar d)]
    /\ inLog (usbDevice d') = inLog (usbDevice d)
    /\ rdScript (usbDevice d') = rdScript (usbDevice d).
Proof.
  intros Hw. exists (afterRequest d p useTermChar).
  split; [apply doRead_refused; exact Hw|]. repeat split.
Qed.

(** A driver that refuses the first write, with a response pending. *)
Lemma doRead_request_refused_witness :
  exists d',
    doRead
      (defaultDevice
         (mkUSB [] [Some (ErrTransport 3)] [(respHeader 2 253 4, None)] []))
      (repeat 0%Z 4) true
    = Ok (d', repeat 0%Z 4, (0, Some (ErrTransport 3)))
    /\ bTag d' = 2%Z
    /\ outLog (usbDevice d')
       = [[2%Z; 2%Z; 253%Z; 0%Z; 4%Z; 0%Z; 0%Z; 0%Z; 2%Z; 10%Z; 0%Z; 0%Z]]
    /\ inLog (usbDevice d') = []
    /\ rdScript (usbDevice d') = [(respHeader 2 253 4, None)].
Proof.
  apply (doRead_request_refused
           (defaultDevice
              (mkUSB [] [Some (ErrTransport 3)] [(respHeader 2 253 4, None)] []))
           (repeat 0%Z 4) true (ErrTransport 3)).
  reflexivity.
Defined.

(** X6: when the first raw read fails with a driver error, [doRead] returns
    zero bytes and that error, however many bytes the driver delivered with
    it; the caller's buffer is left as it was and no further read is made. *)
Theorem doRead_first_read_error (d : Device) (p : list byte)
  (useTermChar : bool) (data : list byte) (e : error)
  (rest : list (list byte * option error)) :
  0 < length p ->
  wrOutcome (usbDevice d) = None ->
  rdScript (usbDevice d) = (data, Some e) :: rest ->
  exists d',
    doRead d p useTermChar = Ok (d', p, (0, Some e))
    /\ rdScript (usbDevice d') = rest
    /\ inLog (usbDevice d') = inLog (usbDevice d) ++ [tempSize (length p)].
Proof.
  intros Hp Hw Hrd. rewrite doRead_accepted by assumption.
  remember (length p) as L eqn:EL.
  destruct L as [|fuel]; [lia|].
  rewrite doRead_loop_first by lia.
  rewrite (readRemoveHeader_error (afterRequest d p useTermChar) p data e rest)
    by exact Hrd.
  eexists. split; [reflexivity|]. split; [reflexivity|].
  cbn [usbDevice set_usb afterRequest inLog]. now rewrite <- EL.
Qed.

(** A driver error together with a full transfer of 16 bytes. *)
Lemma doRead_first_read_error_witness :
  exists d',
    doRead
      (defaultDevice
         (respondingUSB
            [(respHeader 2 253 4 ++ [65%Z; 66%Z; 67%Z; 68%Z],
              Some (ErrTransport 9))]))
      (repeat 0%Z 4) true
    = Ok (d', repeat 0%Z 4, (0, Some (ErrTransport 9)))
    /\ rdScript (usbDevice d') = []
    /\ inLog (usbDevice d') = [512].
Proof.
  apply (doRead_first_read_error
           (defaultDevice
              (respondingUSB
                 [(respHeader 2 253 4 ++ [65%Z; 66%Z; 67%Z; 68%Z],
                   Some (ErrTransport 9))]))
           (repeat 0%Z 4) true
           (respHeader 2 253 4 ++ [65%Z; 66%Z; 67%Z; 68%Z]) (ErrTransport 9) []).
  - rewrite repeat_length. lia.
  - reflexivity.
  - reflexivity.
Defined.

(** X7: [doRead] ends on every driver, and when it returns (rather than
    panics) the caller's buffer has kept its length, the tag has been
    advanced once, the driver has been handed exactly one buffer, the request
    header, and at most [len(p)] raw reads have been made; the terminator
    settings of the device are unchanged. *)
Theorem doRead_effects (d : Device) (p : list byte) (useTermChar : bool) :
  match doRead d p useTermChar with
  | Ok (d', p', _) =>
      length p' = length p
      /\ bTag d' = nextbTag (bTag d)
      /\ outLog (usbDevice d')
         = outLog (usbDevice d)
           ++ [encodeMsgInBulkOutHeader (nextbTag (bTag d))
                 (uint32 (Z.of_nat (length p)))
                 (useTermChar && termCharEnabled d) (termChar d)]
      /\ length (inLog (usbDevice d'))
         <= length (inLog (usbDevice d)) + length p
      /\ termChar d' = termChar d
      /\ termCharEnabled d' = termCharEnabled d
  | Panic _ => True
  | OutOfFuel => False
  end.
Proof.
  pose proof (doRead_total d p useTermChar) as Htot.
  destruct (wrOutcome (usbDevice d)) as [e|] eqn:Hw.
  - rewrite (doRead_refused _ _ _ _ Hw). repeat split. cbn. lia.
  - rewrite doRead_accepted in * by exact Hw.
    destruct (doRead_loop (length p) (afterRequest d p useTermChar) p 0 0)
      as [[[d' p'] r]|f|] eqn:Hrun; [|exact I|congruence].
    pose proof (doRead_loop_length _ _ _ _ _ _ _ _ Hrun) as Hlen.
    destruct (doRead_loop_effects _ _ _ _ _ _ _ _ Hrun)
      as (Ho & _ & Ht & Htc & Hte & Hi).
    rewrite Nat.sub_0_r in Hi.
    repeat split; assumption.
Qed.

(** X8: the first raw read of a response is made with a buffer whose length
    is a multiple of 512 with room for the header and [len(p)] bytes, and
    less than 512 bytes beyond that. *)
Theorem readRemoveHeader_read_size (d : Device) (p : list byte) :
  inLog (usbDevice (fst (fst (readRemoveHeader d p))))
  = inLog (usbDevice d) ++ [tempSize (length p)]
  /\ tempSize (length p) mod 512 = 0
  /\ length p + 12 <= tempSize (length p) < length p + 12 + 512.
Proof.
  rewrite readRemoveHeader_device.
  destruct (tempSize_bounds (length p)) as [Hlo Hmod].
  pose proof (tempSize_upper (length p)) as Hhi.
  repeat split; assumption.
Qed.

(** ** The second pass of the loop of [doRead] *)

Lemma dumpLenOf_bound (lenp pos resp : nat) :
  dumpLenOf lenp pos resp <= 100
  /\ dumpLenOf lenp pos resp <= resp
  /\ dumpLenOf lenp pos resp <= lenp - pos.
Proof.
  unfold dumpLenOf.
  destruct (resp <? 100) eqn:E1;
    [apply Nat.ltb_lt in E1 | apply Nat.ltb_ge in E1].
  - destruct (lenp - pos <? resp) eqn:E2;
      [apply Nat.ltb_lt in E2 | apply Nat.ltb_ge in E2]; lia.
  - destruct (lenp - pos <? 100) eqn:E2;
      [apply Nat.ltb_lt in E2 | apply Nat.ltb_ge in E2]; lia.
Qed.

(** A pass after the first one panics when the lower bound [pos] of the trace
    slice exceeds its upper bound. *)
Lemma doRead_loop_next_panics (fuel : nat) (d : Device) (p : list byte)
  (pos transfer : nat) :
  0 < pos < length p ->
  dumpLenOf (length p) pos (readSize (rdScript (usbDevice d))) < pos ->
  doRead_loop (S fuel) d p pos transfer
  = Panic (SliceBounds pos
             (dumpLenOf (length p) pos (readSize (rdScript (usbDevice d))))).
Proof.
  intros Hpos Hdump. rewrite doRead_loop_next by assumption.
  destruct (readKeepHeader_device d (skipn pos p)) as [_ Hn].
  destruct (readKeepHeader d (skipn pos p)) as [[d1 sub] [resp err]].
  cbn [fst snd] in Hn. subst resp. cbn zeta.
  apply Nat.leb_gt in Hdump. rewrite Hdump. reflexivity.
Qed.

(** After a first transfer that neither completes the response nor fills the
    buffer, [doRead] goes into a second pass. *)
Lemma doRead_second_pass (d : Device) (p : list byte) (useTermChar : bool)
  (hdr d1 : list byte) (rest : list (list byte * option error)) :
  wrOutcome (usbDevice d) = None ->
  length hdr = 12 ->
  rdScript (usbDevice d) = (hdr ++ d1, None) :: rest ->
  0 < length d1 < length p ->
  length d1 < Z.to_nat (hdrTransferSize hdr) ->
  exists dd fuel,
    doRead d p useTermChar
    = doRead_loop (S fuel) dd (d1 ++ skipn (length d1) p) (length d1)
        (Z.to_nat (hdrTransferSize hdr))
    /\ rdScript (usbDevice dd) = rest
    /\ length (d1 ++ skipn (length d1) p) = length p.
Proof.
  intros Hw Hhdr Hrd Hd1 HT. rewrite doRead_accepted by assumption.
  remember (length p) as L eqn:EL.
  destruct L as [|[|fuel]]; [lia | lia |].
  rewrite doRead_loop_first by lia.
  rewrite (readRemoveHeader_ok (afterRequest d p useTermChar) p hdr d1 rest)
    by (assumption || lia).
  cbn zeta.
  replace (length d1 =? 0) with false by (symmetry; apply Nat.eqb_neq; lia).
  replace (Z.to_nat (hdrTransferSize hdr) <=? length d1) with false
    by (symmetry; apply Nat.leb_gt; lia).
  eexists. exists fuel. split; [reflexivity|]. split; [reflexivity|].
  rewrite length_app, length_skipn. lia.
Qed.

Lemma doRead_second_pass_panics (d : Device) (p : list byte)
  (useTermChar : bool) (hdr d1 : list byte)
  (rest : list (list byte * option error)) :
  wrOutcome (usbDevice d) = None ->
  length hdr = 12 ->
  rdScript (usbDevice d) = (hdr ++ d1, None) :: rest ->
  length d1 < length p ->
  length d1 < Z.to_nat (hdrTransferSize hdr) ->
  dumpLenOf (length p) (length d1) (readSize rest) < length d1 ->
  doRead d p useTermChar
  = Panic (SliceBounds (length d1)
             (dumpLenOf (length p) (length d1) (readSize rest))).
Proof.
  intros Hw Hhdr Hrd Hd1 HT Hdump.
  destruct (doRead_second_pass d p useTermChar hdr d1 rest)
    as (dd & fuel & Hrun & Hrest & Hlen); try assumption; [lia|].
  rewrite Hrun, doRead_loop_next_panics; rewrite Hlen, ?Hrest;
    [reflexivity | lia | assumption].
Qed.

(** X9: when the first transfer neither completes the response nor fills the
    buffer and the next raw read delivers fewer bytes than the buffer already
    holds (none at all included, with or without a driver error), [doRead]
    panics in its second pass: the slice [p[pos:dumpLen]] has its lower bound
    above its upper bound. *)
Theorem doRead_panics_on_short_continuation (d : Device) (p : list byte)
  (useTermChar : bool) (hdr d1 : list byte)
  (rest : list (list byte * option error)) :
  wrOutcome (usbDevice d) = None ->
  length hdr = 12 ->
  rdScript (usbDevice d) = (hdr ++ d1, None) :: rest ->
  length d1 < length p ->
  length d1 < Z.to_nat (hdrTransferSize hdr) ->
  readSize rest < length d1 ->
  exists hi,
    doRead d p useTermChar = Panic (SliceBounds (length d1) hi)
    /\ hi < length d1.
Proof.
  intros Hw Hhdr Hrd Hd1 HT Hshort.
  pose proof (dumpLenOf_bound (length p) (length d1) (readSize rest))
    as (_ & Hb & _).
  eexists. split.
  - apply (doRead_second_pass_panics d p useTermChar hdr d1 rest);
      try assumption. lia.
  - lia.
Qed.

(** A first transfer with 8 of 20 declared bytes, then a read of 5 bytes. *)
Lemma doRead_panics_on_short_continuation_witness :
  exists hi,
    doRead
      (defaultDevice
         (respondingUSB
            [(respHeader 2 253 20 ++ repeat 65%Z 8, None);
             (repeat 66%Z 5, None)]))
      (repeat 0%Z 20) true
    = Panic (SliceBounds 8 hi)
    /\ hi < 8.
Proof.
  apply (doRead_panics_on_short_continuation
           (defaultDevice
              (respondingUSB
                 [(respHeader 2 253 20 ++ repeat 65%Z 8, None);
                  (repeat 66%Z 5, None)]))
           (repeat 0%Z 20) true (respHeader 2 253 20) (repeat 65%Z 8)
           [(repeat 66%Z 5, None)]).
  - reflexivity.
  - reflexivity.
  - reflexivity.
  - vm_compute. lia.
  - vm_compute. lia.
  - vm_compute. lia.
Defined.

(** X10: when the first transfer delivers more than 100 payload bytes and
    neither completes the response nor fills the buffer, [doRead] panics in
    its second pass, whatever the driver answers next. *)
Theorem doRead_panics_after_100_bytes (d : Device) (p : list byte)
  (useTermChar : bool) (hdr d1 : list byte)
  (rest : list (list byte * option error)) :
  wrOutcome (usbDevice d) = None ->
  length hdr = 12 ->
  rdScript (usbDevice d) = (hdr ++ d1, None) :: rest ->
  100 < length d1 < length p ->
  length d1 < Z.to_nat (hdrTransferSize hdr) ->
  exists hi,
    doRead d p useTermChar = Panic (SliceBounds (length d1) hi)
    /\ hi <= 100.
Proof.
  intros Hw Hhdr Hrd Hd1 HT.
  pose proof (dumpLenOf_bound (length p) (length d1) (readSize rest))
    as (Hb & _ & _).
  eexists. split.
  - apply (doRead_second_pass_panics d p useTermChar hdr d1 rest);
      try assumption; lia.
  - exact Hb.
Qed.

(** 600 bytes declared into a buffer of 600 bytes, 200 of them in the first
    transfer and 400 in the second. *)
Lemma doRead_panics_after_100_bytes_witness :
  exists hi,
    doRead
      (defaultDevice
         (respondingUSB
            [(respHeader 2 253 600 ++ repeat 65%Z 200, None);
             (repeat 66%Z 400, None)]))
      (repeat 0%Z 600) true
    = Panic (SliceBounds 200 hi)
    /\ hi <= 100.
Proof.
  destruct (doRead_panics_after_100_bytes
              (defaultDevice
                 (respondingUSB
                    [(respHeader 2 253 600 ++ repeat 65%Z 200, None);
                     (repeat 66%Z 400, None)]))
              (repeat 0%Z 600) true (respHeader 2 253 600) (repeat 65%Z 200)
              [(repeat 66%Z 400, None)])
    as (hi & Hrun & Hhi).
  - reflexivity.
  - reflexivity.
  - reflexivity.
  - rewrite !repeat_length. lia.
  - rewrite repeat_length. vm_compute. lia.
  - exists hi. rewrite repeat_length in Hrun. split; assumption.
Defined.

(** ** Responses of one transfer *)

(** A first transfer that carries no payload, or all the declared bytes, or
    enough to fill the buffer, ends the read. *)
Lemma doRead_one_transfer (d : Device) (p : list byte) (useTermChar : bool)
  (hdr d1 : list byte) (rest : list (list byte * option error)) :
  0 < length p ->
  wrOutcome (usbDevice d) = None ->
  length hdr = 12 ->
  rdScript (usbDevice d) = (hdr ++ d1, None) :: rest ->
  12 + length d1 <= tempSize (length p) ->
  length d1 = 0 \/ Z.to_nat (hdrTransferSize hdr) <= length d1
  \/ length p <= length d1 ->
  let a := afterRequest d p useTermChar in
  doRead d p useTermChar
  = Ok (set_usb a
          (mkUSB (outLog (usbDevice a)) (wrScript (usbDevice a)) rest
             (inLog (usbDevice a) ++ [tempSize (length p)])),
        copy p d1,
        (Nat.min (length d1) (Z.to_nat (hdrTransferSize hdr)), None)).
Proof.
  intros Hp Hw Hhdr Hrd Hfit Hend a. rewrite doRead_accepted by assumption.
  fold a.
  assert (Hlen : exists fuel, length p = S fuel).
  { destruct (length p) as [|fuel]; [lia | eauto]. }
  destruct Hlen as [fuel Hlen]. rewrite Hlen at 1.
  rewrite doRead_loop_first by lia.
  rewrite (readRemoveHeader_fits a p hdr d1 rest) by assumption.
  cbn zeta.
  destruct (length d1 =? 0) eqn:E0.
  - apply Nat.eqb_eq in E0. rewrite E0. reflexivity.
  - apply Nat.eqb_neq in E0.
    destruct (Z.to_nat (hdrTransferSize hdr) <=? length d1) eqn:ET;
      [reflexivity|].
    apply Nat.leb_gt in ET.
    rewrite doRead_loop_done by (rewrite length_copy; lia).
    reflexivity.
Qed.

(** X11: when the first transfer of a response fits the temporary buffer and
    carries no payload, or at least the declared [T] bytes, or enough to fill
    the buffer, [doRead] makes no second read and returns
    [min(payload bytes, T)] with no error: alignment bytes after the declared
    size are not counted, and what does not fit the caller's buffer is
    dropped. *)
Theorem doRead_first_transfer_ends (d : Device) (p : list byte)
  (useTermChar : bool) (hdr d1 : list byte)
  (rest : list (list byte * option error)) :
  0 < length p ->
  wrOutcome (usbDevice d) = None ->
  length hdr = 12 ->
  rdScript (usbDevice d) = (hdr ++ d1, None) :: rest ->
  12 + length d1 <= tempSize (length p) ->
  length d1 = 0 \/ Z.to_nat (hdrTransferSize hdr) <= length d1
  \/ length p <= length d1 ->
  exists d',
    doRead d p useTermChar
    = Ok (d', firstn (length p) d1 ++ skipn (length d1) p,
          (Nat.min (length d1) (Z.to_nat (hdrTransferSize hdr)), None))
    /\ rdScript (usbDevice d') = rest
    /\ inLog (usbDevice d') = inLog (usbDevice d) ++ [tempSize (length p)].
Proof.
  intros Hp Hw Hhdr Hrd Hfit Hend.
  rewrite (doRead_one_transfer d p useTermChar hdr d1 rest) by assumption.
  eexists. split; [reflexivity|]. split; reflexivity.
Qed.

(** A buffer of 5 bytes and a transfer that declares 5 bytes and carries
    them with 3 alignment bytes. *)
Lemma doRead_first_transfer_ends_witness :
  exists d',
    doRead
      (defaultDevice
         (respondingUSB
            [(respHeader 2 253 5
              ++ [65%Z; 66%Z; 67%Z; 68%Z; 69%Z; 0%Z; 0%Z; 0%Z], None)]))
      (repeat 1%Z 5) true
    = Ok (d', [65%Z; 66%Z; 67%Z; 68%Z; 69%Z], (5, None))
    /\ rdScript (usbDevice d') = []
    /\ inLog (usbDevice d') = [512].
Proof.
  apply (doRead_first_transfer_ends
           (defaultDevice
              (respondingUSB
                 [(respHeader 2 253 5
                   ++ [65%Z; 66%Z; 67%Z; 68%Z; 69%Z; 0%Z; 0%Z; 0%Z], None)]))
           (repeat 1%Z 5) true (respHeader 2 253 5)
           [65%Z; 66%Z; 67%Z; 68%Z; 69%Z; 0%Z; 0%Z; 0%Z] []).
  - vm_compute. lia.
  - reflexivity.
  - reflexivity.
  - reflexivity.
  - vm_compute. lia.
  - right. left. vm_compute. lia.
Defined.

(** ** Query *)

Lemma acceptsWrites_skipn (ws : list (option error)) (k : nat) :
  Forall (fun r => r = None) ws -> Forall (fun r => r = None) (skipn k ws).
Proof.
  revert ws. induction k as [|k IH]; intros ws H; [exact H|].
  destruct ws as [|w ws]; [constructor|].
  inversion H; subst. cbn [skipn]. now apply IH.
Qed.

(** The device once [Write] has sent the text [t] on a driver that accepts
    every write. *)
Lemma Write_accepted_device (d : Device) (t : list byte) :
  acceptsWrites (usbDevice d) ->
  let u := usbDevice d in
  let k := chunkCount (length t) in
  Write d t
  = Some (mkDevice
            (mkUSB (outLog u ++ framesOf (bTag d) (chunks t))
               (skipn k (wrScript u)) (rdScript u) (inLog u))
            (tagAfter k (bTag d)) (termChar d) (termCharEnabled d),
          (length t, None)).
Proof.
  intros Hacc u k.
  pose proof (Write_loop_accepts (length t) d t 0 ltac:(lia) Hacc) as Hrun.
  cbn zeta in Hrun. rewrite Nat.sub_0_r in Hrun. cbn [skipn] in Hrun.
  exact Hrun.
Qed.

Lemma Write_refused_device (d : Device) (t : list byte) (i : nat)
  (e : error) (ws : list (option error)) :
  wrScript (usbDevice d) = repeat None i ++ Some e :: ws ->
  500 * i < length t ->
  let u := usbDevice d in
  Write d t
  = Some (mkDevice
            (mkUSB (outLog u ++ framesOf (bTag d) (chunksN (S i) t))
               ws (rdScript u) (inLog u))
            (tagAfter (S i) (bTag d)) (termChar d) (termCharEnabled d),
          (500 * i, Some e)).
Proof.
  intros Hws Hi u.
  pose proof (Write_loop_fails i (length t) d t 0 e ws Hws ltac:(lia) ltac:(lia))
    as Hrun.
  cbn zeta in Hrun. cbn [skipn Nat.add] in Hrun. exact Hrun.
Qed.

(** X12: when the driver refuses one of the transfers of the command,
    [Query] returns the empty string and the driver's error and goes no
    further: no request header is sent and nothing is read. *)
Theorem Query_command_refused (d : Device) (s : list byte) (i : nat)
  (e : error) (ws : list (option error)) :
  wrScript (usbDevice d) = repeat None i ++ Some e :: ws ->
  500 * i < length (TrimSpace s ++ [10%Z]) ->
  exists d',
    Query d s = Ok (d', ([], Some e))
    /\ outLog (usbDevice d')
       = outLog (usbDevice d)
         ++ framesOf (bTag d) (chunksN (S i) (TrimSpace s ++ [10%Z]))
    /\ inLog (usbDevice d') = inLog (usbDevice d)
    /\ rdScript (usbDevice d') = rdScript (usbDevice d)
    /\ wrScript (usbDevice d') = ws.
Proof.
  intros Hws Hi. unfold Query, Command, WriteString.
  rewrite (Write_refused_device d _ i e ws Hws Hi).
  eexists. split; [reflexivity|]. repeat split.
Qed.

(** A driver that refuses the first write. *)
Lemma Query_command_refused_witness :
  exists d',
    Query (defaultDevice (mkUSB [] [Some (ErrTransport 5)] [] []))
      [42%Z; 73%Z; 68%Z; 78%Z; 63%Z]
    = Ok (d', ([], Some (ErrTransport 5)))
    /\ map sentPayload (outLog (usbDevice d'))
       = [[42%Z; 73%Z; 68%Z; 78%Z; 63%Z; 10%Z]]
    /\ inLog (usbDevice d') = [].
Proof.
  destruct (Query_command_refused
              (defaultDevice (mkUSB [] [Some (ErrTransport 5)] [] []))
              [42%Z; 73%Z; 68%Z; 78%Z; 63%Z] 0 (ErrTransport 5) [])
    as (d' & Hq & Hlog & Hin & _).
  - reflexivity.
  - vm_compute. lia.
  - exists d'. split; [exact Hq|]. split; [|exact Hin].
    rewrite Hlog. vm_compute. reflexivity.
Defined.

Lemma wrOutcome_accepting (ws : list (option error)) (ol : list (list byte))
  (rs : list (list byte * option error)) (il : list nat) :
  Forall (fun r => r = None) ws -> wrOutcome (mkUSB ol ws rs il) = None.
Proof.
  intros H. unfold wrOutcome. cbn [wrScript].
  destruct ws as [|w ws]; [reflexivity|].
  inversion H; subst. reflexivity.
Qed.

Lemma firstn_copy (p d1 : list byte) (n : nat) :
  n <= length d1 -> length d1 <= length p ->
  firstn n (copy p d1) = firstn n d1.
Proof.
  intros Hn Hfit. rewrite copy_fits by assumption.
  rewrite firstn_app.
  replace (n - length d1) with 0 by lia.
  cbn [firstn]. apply app_nil_r.
Qed.

(** X13: on a driver that accepts every write, when the response comes in one
    transfer of a 12-byte header declaring [T] and at most 500 payload bytes
    (none, or at least [T], or exactly 500), [Query] sends the stripped text
    and a newline, then one request header asking for 500 bytes, makes one
    raw read with a buffer of 512 bytes, and returns the first
    [min(payload bytes, T)] bytes of the payload with no error: the empty
    string when the transfer carries no payload. *)
Theorem Query_round_trip (d : Device) (s : list byte)
  (hdr d1 : list byte) (rest : list (list byte * option error)) :
  acceptsWrites (usbDevice d) ->
  length hdr = 12 ->
  rdScript (usbDevice d) = (hdr ++ d1, None) :: rest ->
  length d1 <= 500 ->
  length d1 = 0 \/ Z.to_nat (hdrTransferSize hdr) <= length d1
  \/ length d1 = 500 ->
  exists d',
    Query d s
    = Ok (d',
          (firstn (Nat.min (length d1) (Z.to_nat (hdrTransferSize hdr))) d1,
           None))
    /\ outLog (usbDevice d')
       = (outLog (usbDevice d)
          ++ framesOf (bTag d) (chunks (TrimSpace s ++ [10%Z])))
         ++ [encodeMsgInBulkOutHeader
               (nextbTag
                  (tagAfter (chunkCount (length (TrimSpace s ++ [10%Z])))
                     (bTag d)))
               500 (termCharEnabled d) (termChar d)]
    /\ inLog (usbDevice d') = inLog (usbDevice d) ++ [512]
    /\ rdScript (usbDevice d') = rest.
Proof.
  intros Hacc Hhdr Hrd Hd1 Hend. unfold Query, Command, WriteString.
  rewrite (Write_accepted_device d _ Hacc). cbn zeta.
  change (maxPacketSize - usbtmcHeaderLen) with 500.
  unfold Read.
  rewrite (doRead_one_transfer _ (repeat 0%Z 500) true hdr d1 rest).
  - cbn zeta. rewrite length_copy, repeat_length.
    replace (500 <? Nat.min (length d1) (Z.to_nat (hdrTransferSize hdr)))
      with false by (symmetry; apply Nat.ltb_ge; lia).
    rewrite firstn_copy by (rewrite ?repeat_length; lia).
    eexists. split; [reflexivity|].
    cbn [usbDevice set_usb afterRequest outLog inLog rdScript bTag termChar
           termCharEnabled andb].
    rewrite repeat_length.
    split; [reflexivity|]. split; reflexivity.
  - rewrite repeat_length. lia.
  - apply wrOutcome_accepting, acceptsWrites_skipn. exact Hacc.
  - exact Hhdr.
  - exact Hrd.
  - rewrite repeat_length. change (tempSize 500) with 512. lia.
  - rewrite repeat_length. intuition lia.
Qed.

(** The query "*IDN?" answered by one transfer with 20 bytes and an
    alignment byte. *)
Lemma Query_round_trip_witness :
  exists d',
    Query
      (defaultDevice
         (respondingUSB
            [(respHeader 3 252 20
              ++ [65%Z; 67%Z; 77%Z; 69%Z; 44%Z; 77%Z; 79%Z; 68%Z; 69%Z; 76%Z;
                  49%Z; 44%Z; 83%Z; 78%Z; 49%Z; 44%Z; 49%Z; 46%Z; 48%Z; 10%Z]
              ++ [0%Z; 0%Z; 0%Z; 0%Z], None)]))
      [42%Z; 73%Z; 68%Z; 78%Z; 63%Z]
    = Ok (d',
          ([65%Z; 67%Z; 77%Z; 69%Z; 44%Z; 77%Z; 79%Z; 68%Z; 69%Z; 76%Z;
            49%Z; 44%Z; 83%Z; 78%Z; 49%Z; 44%Z; 49%Z; 46%Z; 48%Z; 10%Z],
           None))
    /\ inLog (usbDevice d') = [512]
    /\ rdScript (usbDevice d') = [].
Proof.
  destruct (Query_round_trip
              (defaultDevice
                 (respondingUSB
                    [(respHeader 3 252 20
                      ++ [65%Z; 67%Z; 77%Z; 69%Z; 44%Z; 77%Z; 79%Z; 68%Z; 69%Z;
                          76%Z; 49%Z; 44%Z; 83%Z; 78%Z; 49%Z; 44%Z; 49%Z; 46%Z;
                          48%Z; 10%Z]
                      ++ [0%Z; 0%Z; 0%Z; 0%Z], None)]))
              [42%Z; 73%Z; 68%Z; 78%Z; 63%Z]
              (respHeader 3 252 20)
              ([65%Z; 67%Z; 77%Z; 69%Z; 44%Z; 77%Z; 79%Z; 68%Z; 69%Z; 76%Z;
                49%Z; 44%Z; 83%Z; 78%Z; 49%Z; 44%Z; 49%Z; 46%Z; 48%Z; 10%Z]
               ++ [0%Z; 0%Z; 0%Z; 0%Z]) [])
    as (d' & Hq & _ & Hin & Hrd).
  - constructor.
  - reflexivity.
  - reflexivity.
  - vm_compute. lia.
  - right. left. vm_compute. lia.
  - exists d'. split; [exact Hq|]. split; [exact Hin | exact Hrd].
Defined.

(** A first raw read that fails: by a driver error or by being too short
    for a header. *)
Lemma doRead_first_read_fails (d : Device) (p : list byte)
  (useTermChar : bool) (data : list byte) (err : option error)
  (rest : list (list byte * option error)) :
  0 < length p ->
  wrOutcome (usbDevice d) = None ->
  rdScript (usbDevice d) = (data, err) :: rest ->
  length data < 12 \/ (exists e, err = Some e) ->
  exists d',
    doRead d p useTermChar
    = Ok (d', p,
          (0, Some (match err with
                    | Some e => e
                    | None => ErrShortRead (length data)
                    end)))
    /\ outLog (usbDevice d')
       = outLog (usbDevice (afterRequest d p useTermChar))
    /\ inLog (usbDevice d') = inLog (usbDevice d) ++ [tempSize (length p)]
    /\ rdScript (usbDevice d') = rest.
Proof.
  intros Hp Hw Hrd Hfail.
  set (a := afterRequest d p useTermChar).
  assert (Hrun :
    doRead d p useTermChar
    = Ok (set_usb a
            (mkUSB (outLog (usbDevice a)) (wrScript (usbDevice a)) rest
               (inLog (usbDevice a) ++ [tempSize (length p)])),
          p,
          (0, Some (match err with
                    | Some e => e
                    | None => ErrShortRead (length data)
                    end)))).
  { rewrite doRead_accepted by assumption. fold a.
    assert (Hlen : exists fuel, length p = S fuel).
    { destruct (length p) as [|fuel]; [lia | eauto]. }
    destruct Hlen as [fuel Hlen]. rewrite Hlen at 1.
    rewrite doRead_loop_first by lia.
    destruct Hfail as [Hshort|[e ->]].
    - now rewrite (readRemoveHeader_short a p data err rest) by assumption.
    - now rewrite (readRemoveHeader_error a p data e rest) by assumption. }
  eexists. split; [exact Hrun|]. repeat split.
Qed.

(** X14: on a driver that accepts every write, when the raw read of the
    response fails, by a driver error or by delivering fewer than 12 bytes,
    [Query] returns the empty string and the error (the driver's, or that of
    a short read) after a single read. *)
Theorem Query_read_fails (d : Device) (s : list byte)
  (data : list byte) (err : option error)
  (rest : list (list byte * option error)) :
  acceptsWrites (usbDevice d) ->
  rdScript (usbDevice d) = (data, err) :: rest ->
  length data < 12 \/ (exists e, err = Some e) ->
  exists d',
    Query d s
    = Ok (d',
          ([], Some (match err with
                     | Some e => e
                     | None => ErrShortRead (length data)
                     end)))
    /\ inLog (usbDevice d') = inLog (usbDevice d) ++ [512]
    /\ rdScript (usbDevice d') = rest.
Proof.
  intros Hacc Hrd Hfail. unfold Query, Command, WriteString.
  rewrite (Write_accepted_device d _ Hacc). cbn zeta.
  change (maxPacketSize - usbtmcHeaderLen) with 500.
  unfold Read.
  match goal with
  | |- context [doRead ?dd ?pp true] =>
      destruct (doRead_first_read_fails dd pp true data err rest)
        as (d' & Hrun & _ & Hin & Hrest)
  end.
  - rewrite repeat_length. lia.
  - apply wrOutcome_accepting, acceptsWrites_skipn. exact Hacc.
  - exact Hrd.
  - exact Hfail.
  - rewrite Hrun. exists d'. split; [reflexivity|].
    rewrite repeat_length in Hin. split; [exact Hin | exact Hrest].
Qed.

(** A response of 3 bytes. *)
Lemma Query_read_fails_witness :
  exists d',
    Query (defaultDevice (respondingUSB [([2%Z; 3%Z; 252%Z], None)]))
      [42%Z; 73%Z; 68%Z; 78%Z; 63%Z]
    = Ok (d', ([], Some (ErrShortRead 3)))
    /\ inLog (usbDevice d') = [512]
    /\ rdScript (usbDevice d') = [].
Proof.
  apply (Query_read_fails
           (defaultDevice (respondingUSB [([2%Z; 3%Z; 252%Z], None)]))
           [42%Z; 73%Z; 68%Z; 78%Z; 63%Z] [2%Z; 3%Z; 252%Z] None []).
  - constructor.
  - reflexivity.
  - left. simpl. lia.
Defined.

(** ** Context *)

(** X15: a device that [NewDeviceByVIDPID] creates in a context whose start
    tag was set to [t] has the tag [t], the terminator newline, enabled, and
    the handle the driver found; the first transfer it writes carries the tag
    after [t], [nextbTag(t)], not [t] itself.  When the driver finds no
    device its error is returned. *)
Theorem NewDeviceByVIDPID_first_tag (c : Context) (VID PID : Z) (t : byte)
  (p : list byte) :
  0 < length p ->
  match libusbContext c VID PID with
  | inr e => NewDeviceByVIDPID (SetStartTag c t) VID PID = inr e
  | inl u =>
      exists d d' r f fs,
        NewDeviceByVIDPID (SetStartTag c t) VID PID = inl d
        /\ usbDevice d = u
        /\ bTag d = t
        /\ termChar d = 10%Z
        /\ termCharEnabled d = true
        /\ Write d p = Some (d', r)
        /\ outLog (usbDevice d') = outLog u ++ f :: fs
        /\ hdrTag f = nextbTag t
  end.
Proof.
  intros Hp. unfold NewDeviceByVIDPID, SetStartTag.
  cbn [libusbContext startTag].
  destruct (libusbContext c VID PID) as [u|e]; [|reflexivity].
  destruct (Write_any (set_bTag (defaultDevice u) t) p)
    as (d' & k & n & err & Hrun & Hlog & _ & _ & _ & _ & _ & Herr).
  assert (Hk : 1 <= k).
  { destruct err as [e|]; [lia|].
    destruct Herr as [_ ->].
    pose proof (chunkCount_inv (length p) Hp). lia. }
  destruct k as [|k]; [lia|].
  cbn [chunksN framesOf set_bTag defaultDevice bTag usbDevice] in Hlog.
  eexists. exists d', (n, err). do 2 eexists.
  split; [reflexivity|]. split; [reflexivity|]. split; [reflexivity|].
  split; [reflexivity|]. split; [reflexivity|].
  split; [exact Hrun|]. split; [exact Hlog|].
  apply frameOf_tag.
Qed.

(** A context whose driver finds an idle device, with start tag 7. *)
Lemma NewDeviceByVIDPID_first_tag_witness :
  exists d d' r f fs,
    NewDeviceByVIDPID
      (SetStartTag (mkContext (fun _ _ => inl idleUSB) 1%Z) 7%Z) 10893%Z 5%Z
    = inl d
    /\ usbDevice d = idleUSB
    /\ bTag d = 7%Z
    /\ termChar d = 10%Z
    /\ termCharEnabled d = true
    /\ Write d [65%Z] = Some (d', r)
    /\ outLog (usbDevice d') = outLog idleUSB ++ f :: fs
    /\ hdrTag f = nextbTag 7%Z.
Proof.
  apply (NewDeviceByVIDPID_first_tag
           (mkContext (fun _ _ => inl idleUSB) 1%Z) 10893%Z 5%Z 7%Z [65%Z]).
  simpl. lia.
Defined.

(** ** The trace of a received header *)

Module TraceFacts.
Import Ascii String Trace.
Local Open Scope string_scope.

Lemma append_assoc (a b c : string) :
  append (append a b) c = append a (append b c).
Proof.
  induction a as [|x a IH]; cbn [append]; [reflexivity | now rewrite IH].
Qed.

Lemma startsWith_append (n c : string) : startsWith n (append n c) = true.
Proof.
  induction n as [|x n IH]; cbn [append startsWith]; [reflexivity|].
  now rewrite Ascii.eqb_refl, IH.
Qed.

Lemma contains_append (n a r : string) :
  contains n r = true -> contains n (append a r) = true.
Proof.
  intros H. induction a as [|x a IH]; cbn [append]; [exact H|].
  cbn [contains]. rewrite IH. apply orb_true_r.
Qed.

Lemma contains_middle (n a c : string) :
  contains n (append a (append n c)) = true.
Proof.
  apply contains_append.
  destruct (append n c) eqn:E; cbn [contains];
    rewrite <- E, startsWith_append; reflexivity.
Qed.

Lemma lacks_append (c : ascii) (a b : string) :
  lacks c (append a b) = lacks c a && lacks c b.
Proof.
  induction a as [|x a IH]; cbn [append lacks]; [reflexivity|].
  now rewrite IH, andb_assoc.
Qed.

Lemma startsWith_lacks (c : ascii) (n : string) :
  forall s, startsWith n s = true -> lacks c s = true -> lacks c n = true.
Proof.
  induction n as [|x n IH]; intros s Hs Hl; [reflexivity|].
  destruct s as [|y s]; [discriminate|].
  cbn [startsWith lacks] in *.
  apply andb_true_iff in Hs as [Hxy Hs].
  apply andb_true_iff in Hl as [Hy Hl].
  apply Ascii.eqb_eq in Hxy. subst y.
  rewrite Hy. cbn [andb]. exact (IH s Hs Hl).
Qed.

Lemma lacks_contains (c : ascii) (n s : string) :
  lacks c n = false -> lacks c s = true -> contains n s = false.
Proof.
  intros Hn. induction s as [|y s IH]; intros Hl.
  - cbn [contains]. destruct (startsWith n "") eqn:E; [|reflexivity].
    rewrite (startsWith_lacks c n "" E Hl) in Hn. discriminate.
  - cbn [contains]. destruct (startsWith n (String y s)) eqn:E.
    + rewrite (startsWith_lacks c n _ E Hl) in Hn. discriminate.
    + cbn [lacks] in Hl. apply andb_true_iff in Hl as [_ Hl].
      cbn [orb]. exact (IH Hl).
Qed.

Lemma lacks_digits (u : Decimal.uint) :
  lacks "i" (DecimalString.NilEmpty.string_of_uint u) = true.
Proof.
  induction u; cbn [DecimalString.NilEmpty.string_of_uint lacks];
    [reflexivity | rewrite IHu; reflexivity ..].
Qed.

Lemma lacks_decimal (z : Z) : lacks "i" (decimal z) = true.
Proof.
  unfold decimal, DecimalString.NilZero.string_of_uint.
  destruct (N.to_uint (Z.to_N z)) eqn:E; try (rewrite <- E; apply lacks_digits).
  reflexivity.
Qed.

Lemma lacks_fill (c x : ascii) (n : nat) :
  Ascii.eqb x c = false -> lacks c (fill x n) = true.
Proof.
  intros H. induction n as [|n IH]; cbn [fill lacks]; [reflexivity|].
  now rewrite H, IH.
Qed.

Lemma lacks_padLeft (x : ascii) (w : nat) (s : string) :
  Ascii.eqb x "i" = false -> lacks "i" s = true ->
  lacks "i" (padLeft x w s) = true.
Proof.
  intros Hx Hs. unfold padLeft. now rewrite lacks_append, lacks_fill, Hs.
Qed.

Lemma hexDigits_not_i (k : nat) :
  Ascii.eqb (nth k hexDigits "0"%char) "i" = false.
Proof.
  unfold hexDigits.
  do 16 (destruct k as [|k]; [reflexivity|]).
  destruct k; reflexivity.
Qed.

Lemma hexDigit_not_i (n : Z) : Ascii.eqb (hexDigit n) "i" = false.
Proof.
  apply hexDigits_not_i.
Qed.

Lemma lacks_hexEncode (bs : list byte) : lacks "i" (hexEncode bs) = true.
Proof.
  induction bs as [|b bs IH]; cbn [hexEncode lacks]; [reflexivity|].
  now rewrite !hexDigit_not_i, IH.
Qed.

Lemma startsWith_append_l (n p y : string) :
  startsWith n p = true -> startsWith n (append p y) = true.
Proof.
  revert p. induction n as [|x n IH]; intros p H; [reflexivity|].
  destruct p as [|z p]; [discriminate|].
  cbn [append startsWith] in *.
  apply andb_true_iff in H as [Hx H]. now rewrite Hx, (IH p H).
Qed.

Lemma contains_append_l (n p y : string) :
  n <> "" -> contains n p = true -> contains n (append p y) = true.
Proof.
  intros Hn. induction p as [|z p IH]; intros H.
  - cbn [contains] in H. rewrite orb_false_r in H.
    destruct n; [congruence | discriminate].
  - cbn [append contains] in *.
    apply orb_true_iff in H as [H|H].
    + pose proof (startsWith_append_l n (String z p) y H) as Hs.
      cbn [append] in Hs. rewrite Hs. reflexivity.
    + rewrite (IH H). apply orb_true_r.
Qed.

Lemma lacks_fmtSp3d (z : Z) : lacks "i" (fmtSp3d z) = true.
Proof.
  unfold fmtSp3d. apply lacks_padLeft; [reflexivity|].
  rewrite lacks_append, lacks_decimal. reflexivity.
Qed.

Lemma lacks_fmt03d (z : Z) : lacks "i" (fmt03d z) = true.
Proof.
  unfold fmt03d. apply lacks_padLeft; [reflexivity | apply lacks_decimal].
Qed.

(** X16: the text [inHdrToString] renders for a header mentions " bad inv"
    exactly when the tag inverse (byte 2) is not the inverse of the tag
    (byte 1). *)
Theorem inHdrToString_flags_bad_inverse (buf : list byte) :
  12 <= List.length buf ->
  contains " bad inv" (inHdrToString buf)
  = negb (invertbTag (hdrTag buf) =? hdrTagInverse buf)%Z.
Proof.
  intros _. unfold inHdrToString, hdrTag, hdrTagInverse. cbn zeta.
  set (kind := if (nth 0 buf 0 =? devDepMsgOut)%Z then "1???"
               else if (nth 0 buf 0 =? devDepMsgIn)%Z then "dvdp"
               else if (nth 0 buf 0 =? vendorSpecificOut)%Z then "126?"
               else if (nth 0 buf 0 =? vendorSpecificIn)%Z then "vnsp"
               else append "R" (fmt03d (nth 0 buf 0%Z))).
  assert (Hkind : lacks "i" kind = true).
  { subst kind.
    repeat match goal with
           | |- context [if ?b then _ else _] => destruct b
           end; try reflexivity.
    rewrite lacks_append, lacks_fmt03d. reflexivity. }
  set (out2 := append (append "type " kind)
                 (append " tag " (fmtSp3d (nth 1 buf 0%Z)))).
  assert (Hout2 : lacks "i" out2 = true).
  { subst out2. rewrite !lacks_append, Hkind, lacks_fmtSp3d. reflexivity. }
  assert (Hne : " bad inv" <> "") by discriminate.
  destruct (negb (invertbTag (nth 1 buf 0) =? nth 2 buf 0)%Z).
  - assert (Hbad :
      contains " bad inv"
        (append out2 (append " bad inv " (fmtSp3d (nth 2 buf 0%Z)))) = true).
    { apply contains_append. reflexivity. }
    destruct (nth 0 buf 0 =? devDepMsgIn)%Z;
      [do 4 (apply contains_append_l; [exact Hne|])
      |apply contains_append_l; [exact Hne|]];
      exact Hbad.
  - apply (lacks_contains "i"); [reflexivity|].
    destruct (nth 0 buf 0 =? devDepMsgIn)%Z.
    + rewrite !lacks_append, Hout2, !lacks_decimal, lacks_hexEncode.
      destruct (Z.testbit (nth 8 buf 0%Z) 0); reflexivity.
    + rewrite !lacks_append, Hout2, lacks_hexEncode. reflexivity.
Qed.

(** A header with tag 5 and tag inverse 0. *)
Lemma inHdrToString_flags_bad_inverse_witness :
  contains " bad inv"
    (inHdrToString [2; 5; 0; 0; 21; 0; 0; 0; 3; 10; 0; 0]%Z) = true.
Proof.
  rewrite (inHdrToString_flags_bad_inverse
             [2; 5; 0; 0; 21; 0; 0; 0; 3; 10; 0; 0]%Z).
  - reflexivity.
  - simpl. lia.
Defined.

End TraceFacts.

(** ** The request header of [Read] and [BulkRead] *)

Lemma doRead_request_logged (d : Device) (p : list byte) (useTermChar : bool) :
  match doRead d p useTermChar with
  | Ok (d', _, _) =>
      outLog (usbDevice d')
      = outLog (usbDevice d)
        ++ [encodeMsgInBulkOutHeader (nextbTag (bTag d))
              (uint32 (Z.of_nat (length p)))
              (useTermChar && termCharEnabled d) (termChar d)]
  | _ => True
  end.
Proof.
  destruct (wrOutcome (usbDevice d)) as [e|] eqn:Hw.
  - rewrite (doRead_refused _ _ _ _ Hw). reflexivity.
  - rewrite doRead_accepted by exact Hw.
    destruct (doRead_loop (length p) (afterRequest d p useTermChar) p 0 0)
      as [[[d' p'] r]|f|] eqn:Hrun; [|exact I|exact I].
    destruct (doRead_loop_effects _ _ _ _ _ _ _ _ Hrun) as (Ho & _).
    exact Ho.
Qed.

Lemma request_header_fields (t : byte) (n : nat) (flag : bool) (tc : byte) :
  let h := encodeMsgInBulkOutHeader t (uint32 (Z.of_nat n)) flag tc in
  Z.testbit (hdrAttr h) 1 = flag
  /\ nth 9 h 0%Z = tc
  /\ hdrTransferSize h = (Z.of_nat n mod 2 ^ 32)%Z
  /\ hdrTag h = t.
Proof.
  intros h. subst h. unfold encodeMsgInBulkOutHeader.
  split; [destruct flag; reflexivity|]. split; [reflexivity|].
  split; [|reflexivity].
  unfold hdrTransferSize, slice. cbn [app skipn firstn Nat.sub].
  apply leUint32_putUint32. apply Z.mod_pos_bound. reflexivity.
Qed.

(** X17: whenever [Read] or [BulkRead] returns, the one buffer it has handed
    to the driver is a request header that asks for [len(p)] bytes (modulo
    [2^32]) and embeds the terminator character of the device; its
    terminator flag (bit 1 of the attributes) is set by [Read] exactly when
    the terminator is enabled on the device, and never by [BulkRead]. *)
Theorem Read_BulkRead_request (d : Device) (p : list byte) :
  match Read d p with
  | Ok (d', _, _) =>
      exists h,
        outLog (usbDevice d') = outLog (usbDevice d) ++ [h]
        /\ Z.testbit (hdrAttr h) 1 = termCharEnabled d
        /\ nth 9 h 0%Z = termChar d
        /\ hdrTransferSize h = (Z.of_nat (length p) mod 2 ^ 32)%Z
        /\ hdrTag h = nextbTag (bTag d)
  | _ => True
  end
  /\ match BulkRead d p with
     | Ok (d', _, _) =>
         exists h,
           outLog (usbDevice d') = outLog (usbDevice d) ++ [h]
           /\ Z.testbit (hdrAttr h) 1 = false
           /\ nth 9 h 0%Z = termChar d
           /\ hdrTransferSize h = (Z.of_nat (length p) mod 2 ^ 32)%Z
           /\ hdrTag h = nextbTag (bTag d)
     | _ => True
     end.
Proof.
  unfold Read, BulkRead. split.
  - pose proof (doRead_request_logged d p true) as H.
    destruct (doRead d p true) as [[[d' p'] r]|f|]; [|exact I|exact I].
    eexists. split; [exact H|]. apply request_header_fields.
  - pose proof (doRead_request_logged d p false) as H.
    destruct (doRead d p false) as [[[d' p'] r]|f|]; [|exact I|exact I].
    eexists. split; [exact H|]. apply request_header_fields.
Qed.

(** ** Commands of one transfer *)

(** X18: on a driver that accepts every write, [Command] with a text of at
    most 499 bytes once stripped sends exactly one transfer: it carries the
    stripped text and a newline, has the EOM bit set and the tag after the
    device's; nothing is read. *)
Theorem Command_single_transfer (d : Device) (cmd : list byte) :
  acceptsWrites (usbDevice d) ->
  length (TrimSpace cmd) <= 499 ->
  exists d' f,
    Command d cmd = Some (d', None)
    /\ outLog (usbDevice d') = outLog (usbDevice d) ++ [f]
    /\ sentPayload f = TrimSpace cmd ++ [10%Z]
    /\ hdrEOM f = true
    /\ hdrTag f = nextbTag (bTag d)
    /\ bTag d' = nextbTag (bTag d)
    /\ inLog (usbDevice d') = inLog (usbDevice d).
Proof.
  intros Hacc Hlen. unfold Command, WriteString.
  rewrite (Write_accepted_device d _ Hacc). cbn zeta.
  set (t := TrimSpace cmd ++ [10%Z]).
  assert (Ht : 0 < length t <= 500).
  { subst t. rewrite length_app. cbn [length]. lia. }
  assert (Hk : chunkCount (length t) = 1)
    by (apply chunkCount_bounds; lia).
  assert (Hc : chunks t = [t]).
  { unfold chunks. rewrite Hk. cbn [chunksN].
    now rewrite firstn_all2 by lia. }
  rewrite Hk, Hc. cbn [framesOf tagAfter].
  do 2 eexists. split; [reflexivity|].
  cbn [usbDevice outLog inLog bTag].
  split; [reflexivity|].
  split; [apply frameOf_payload; lia|].
  split; [apply frameOf_EOM|].
  split; [apply frameOf_tag|].
  split; reflexivity.
Qed.

(** The command "*RST" on an idle device. *)
Lemma Command_single_transfer_witness :
  exists d' f,
    Command (defaultDevice idleUSB) [42%Z; 82%Z; 83%Z; 84%Z] = Some (d', None)
    /\ outLog (usbDevice d') = [f]
    /\ sentPayload f = [42%Z; 82%Z; 83%Z; 84%Z; 10%Z]
    /\ hdrEOM f = true
    /\ hdrTag f = 2%Z
    /\ bTag d' = 2%Z
    /\ inLog (usbDevice d') = [].
Proof.
  apply (Command_single_transfer (defaultDevice idleUSB)
           [42%Z; 82%Z; 83%Z; 84%Z]).
  - constructor.
  - vm_compute. lia.
Defined.
